(** * chess-bot/chess-simulator.cpp: the Stockfish driver and its move parser

    A shallow embedding of [run_stockfish] and [ChessSimulator::Move].

    - [std::string] is a Rocq [string]; [size_t] is a [Z] reduced modulo
      [2^64], with [npos = 2^64 - 1].
    - The operating system is an explicit [World] threaded through a small
      state-and-exception monad [M]; everything the process does to the
      outside (system calls, stdio on the two pipes, clock readings, sleeps,
      diagnostics) is appended to a trace of [event]s.
    - What the outside answers (file permissions, [pipe] and [fork] results,
      the chunks [fgets] delivers, scheduling delays) is an oracle [Env].
    - The two polling loops run on fuel; the theorems show how much fuel is
      always enough.
    - [waitpid] blocks for as long as the child lives: whether the child
      exits is part of the oracle, and a call that waits for a child that
      does not ends as [Blocked].  Writes to the engine's input are taken to
      arrive: a signal raised by a write on a pipe nobody reads any more is
      not part of the model. *)

From Stdlib Require Import String Ascii List ZArith NArith Lia Bool.
From Stdlib Require Import DecimalString.
Import ListNotations.

Local Open Scope string_scope.
Local Open Scope Z_scope.

(** ** Characters and strings *)

Definition NUL : ascii := Ascii.zero.
Definition LF : ascii := ascii_of_nat 10.

(** ["\n"] *)
Definition nl : string := String LF "".

Module Str.

(** Characters of [s] from offset [n] on. *)
Fixpoint drop (n : nat) (s : string) : string :=
  match n, s with
  | O, _ => s
  | S _, EmptyString => EmptyString
  | S n', String _ s' => drop n' s'
  end.

(** The first [n] characters of [s] (all of it when it is shorter). *)
Fixpoint take (n : nat) (s : string) : string :=
  match n, s with
  | O, _ => EmptyString
  | S _, EmptyString => EmptyString
  | S n', String c s' => String c (take n' s')
  end.

(** Offset of the first occurrence of [pat] in [s], scanning left to right. *)
Fixpoint search (pat s : string) : option nat :=
  if String.prefix pat s then Some O
  else match s with
       | EmptyString => None
       | String _ s' => option_map S (search pat s')
       end.

(** [size_t] and [std::string::npos]. *)
Definition size_mod : Z := 2 ^ 64.
Definition npos : Z := size_mod - 1.
Definition wrap (z : Z) : Z := z mod size_mod.

(** [s.size()], [s.length()]. *)
Definition size (s : string) : Z := Z.of_nat (String.length s).

(** [s.empty()]. *)
Definition empty (s : string) : bool :=
  match s with EmptyString => true | String _ _ => false end.

(** [s.find(pat, pos)]: the lowest index [>= pos] at which [pat] occurs,
    [npos] when there is none (in particular when [pos > s.size()]). *)
Definition find (s pat : string) (pos : Z) : Z :=
  if size s <? pos then npos
  else match search pat (drop (Z.to_nat pos) s) with
       | Some k => pos + Z.of_nat k
       | None => npos
       end.

(** [s.c_str()] read back as a C string, and a [char] buffer read as a C
    string: the characters before the first NUL. *)
Fixpoint c_str (s : string) : string :=
  match s with
  | EmptyString => EmptyString
  | String c s' => if Ascii.eqb c NUL then EmptyString else String c (c_str s')
  end.

(** [strstr(buffer, pat) != NULL]. *)
Definition strstr (buffer pat : string) : bool :=
  match search pat (c_str buffer) with Some _ => true | None => false end.

End Str.

(** [printf]'s [%d] applied to an [unsigned]: the 32-bit pattern read as a
    signed [int], in decimal. *)
Definition as_int (u : Z) : Z :=
  let r := u mod 2 ^ 32 in if r <? 2 ^ 31 then r else r - 2 ^ 32.

Definition fmt_d (u : Z) : string := NilZero.string_of_int (Z.to_int (as_int u)).

(** ** The process and its environment *)

(** Everything the process does that the outside can observe.  A [FILE*] is
    identified with the descriptor it was opened on. *)
Inductive event : Type :=
| EvAccess (path : string) (ok : bool)     (* access(path, X_OK) == 0 *)
| EvPipe (ends : option (Z * Z))           (* pipe(): read end, write end *)
| EvFork (pid : Z)
| EvClose (fd : Z)
| EvDup2 (oldfd newfd : Z)
| EvExecl (path : string)
| EvPerror (msg : string)
| EvExit (code : Z)
| EvNonblock (fd : Z)                      (* fcntl F_GETFL, F_SETFL | O_NONBLOCK *)
| EvFdopen (fd : Z)
| EvPrint (fd : Z) (text : string)         (* fprintf *)
| EvFlush (fd : Z)
| EvFgets (fd : Z) (chunk : option string)
| EvNow (t : Z)                            (* steady_clock::now(), in ns *)
| EvSleep (ms : Z)
| EvFclose (fd : Z)
| EvKill (pid : Z)                         (* kill(pid, SIGTERM) *)
| EvWaitpid (pid : Z)
| EvCerr (msg : string).                   (* one line on std::cerr *)

(** What the outside answers. *)
Record Env : Type := mkEnv {
  can_exec : string -> bool;          (* is the path executable for us *)
  pipe1 : option (Z * Z);             (* result of the first pipe() *)
  pipe2 : option (Z * Z);             (* result of the second pipe() *)
  fork_pid : Z;                       (* what fork() returns *)
  exec_ok : bool;                     (* does execl replace the image *)
  hw_threads : Z;                     (* std::thread::hardware_concurrency() *)
  engine_out : nat -> option string;  (* buffer after the k-th fgets, None = NULL *)
  lag : nat -> N;                     (* extra ns gone by at the k-th clock reading *)
  child_exits : bool                  (* does the child exit once told to quit
                                         and sent SIGTERM *)
}.

Record World : Type := mkWorld {
  trace : list event;   (* what happened so far, oldest event first *)
  clock : Z;            (* steady clock, ns *)
  ticks : nat;          (* clock readings taken so far *)
  reads : nat;          (* fgets calls made so far *)
  fds : list Z          (* descriptors this process holds open *)
}.

Definition init : World := mkWorld [] 0 O O [].

(** How a computation ends. *)
Inductive outcome (A : Type) : Type :=
| Ret (a : A)               (* normal completion *)
| Throw (what : string)     (* a std::exception in flight, with its what() *)
| Exec (path : string)      (* the process image was replaced *)
| Exit (code : Z)           (* exit() was called *)
| OutOfFuel                 (* a loop of the model ran out of fuel *)
| Blocked.                  (* a system call that never returns *)

Arguments Ret {A} a.
Arguments Throw {A} what.
Arguments Exec {A} path.
Arguments Exit {A} code.
Arguments OutOfFuel {A}.
Arguments Blocked {A}.

Definition M (A : Type) : Type := World -> outcome A * World.

Definition ret {A} (a : A) : M A := fun w => (Ret a, w).

Definition bind {A B} (m : M A) (k : A -> M B) : M B :=
  fun w =>
    match m w with
    | (Ret a, w') => k a w'
    | (Throw what, w') => (Throw what, w')
    | (Exec p, w') => (Exec p, w')
    | (Exit c, w') => (Exit c, w')
    | (OutOfFuel, w') => (OutOfFuel, w')
    | (Blocked, w') => (Blocked, w')
    end.

Notation "x <- m ;; k" := (bind m (fun x => k))
  (at level 61, m at next level, right associativity).
Notation "' pat <- m ;; k" := (bind m (fun x => match x with pat => k end))
  (at level 61, pat pattern, m at next level, right associativity).
Notation "m ;; k" := (bind m (fun _ => k))
  (at level 61, right associativity).

(** [throw std::runtime_error(what)]. *)
Definition throw {A} (what : string) : M A := fun w => (Throw what, w).

(** [try { body } catch (const std::exception& e) { handler(e.what()) }]. *)
Definition try_catch {A} (body : M A) (handler : string -> M A) : M A :=
  fun w =>
    match body w with
    | (Throw what, w') => handler what w'
    | r => r
    end.

Definition emit (ev : event) : M unit :=
  fun w => (Ret tt, mkWorld (trace w ++ [ev]) (clock w) (ticks w) (reads w) (fds w)).

Definition set_fds (f : list Z -> list Z) : M unit :=
  fun w => (Ret tt, mkWorld (trace w) (clock w) (ticks w) (reads w) (f (fds w))).

(** *** System calls *)

Definition access (e : Env) (path : string) : M bool :=
  emit (EvAccess path (can_exec e path)) ;; ret (can_exec e path).

Definition pipe (ends : option (Z * Z)) : M (option (Z * Z)) :=
  emit (EvPipe ends) ;;
  match ends with
  | Some (r, w) => set_fds (fun l => r :: w :: l) ;; ret ends
  | None => ret None
  end.

Definition fork (e : Env) : M Z := emit (EvFork (fork_pid e)) ;; ret (fork_pid e).

Definition close (fd : Z) : M unit :=
  emit (EvClose fd) ;; set_fds (remove Z.eq_dec fd).

Definition dup2 (oldfd newfd : Z) : M unit :=
  emit (EvDup2 oldfd newfd) ;; set_fds (fun l => newfd :: remove Z.eq_dec newfd l).

(** [execl] returns only when it failed. *)
Definition execl (e : Env) (path : string) : M unit :=
  emit (EvExecl path) ;;
  if exec_ok e then (fun w => (Exec path, w)) else ret tt.

Definition perror (msg : string) : M unit := emit (EvPerror msg).

Definition exit {A} (code : Z) : M A :=
  fun w => (Exit code, mkWorld (trace w ++ [EvExit code]) (clock w) (ticks w) (reads w) (fds w)).

Definition set_nonblock (fd : Z) : M unit := emit (EvNonblock fd).

Definition kill (pid : Z) : M unit := emit (EvKill pid).

(** [waitpid(pid, NULL, 0)]: returns when the child has exited, and not
    before. *)
Definition waitpid (e : Env) (pid : Z) : M unit :=
  emit (EvWaitpid pid) ;;
  if child_exits e then ret tt else (fun w => (Blocked, w)).

(** *** stdio *)

Definition fdopen (fd : Z) : M Z := emit (EvFdopen fd) ;; ret fd.
Definition fprintf (f : Z) (text : string) : M unit := emit (EvPrint f text).
Definition fflush (f : Z) : M unit := emit (EvFlush f).

Definition fclose (f : Z) : M unit :=
  emit (EvFclose f) ;; set_fds (remove Z.eq_dec f).

(** One [fgets(buffer, sizeof buffer, f)] on the non-blocking stream. *)
Definition fgets (e : Env) (f : Z) : M (option string) :=
  fun w =>
    let r := engine_out e (reads w) in
    (Ret r, mkWorld (trace w ++ [EvFgets f r]) (clock w) (ticks w) (S (reads w)) (fds w)).

Definition cerr (msg : string) : M unit := emit (EvCerr msg).

(** *** Time *)

(** [std::chrono::steady_clock::now()]: the clock never runs backwards. *)
Definition steady_now (e : Env) : M Z :=
  fun w =>
    let t := clock w + Z.of_N (lag e (ticks w)) in
    (Ret t, mkWorld (trace w ++ [EvNow t]) t (S (ticks w)) (reads w) (fds w)).

(** [std::this_thread::sleep_for(milliseconds(ms))]: at least [ms] go by. *)
Definition sleep_for (ms : Z) : M unit :=
  fun w =>
    (Ret tt, mkWorld (trace w ++ [EvSleep ms]) (clock w + ms * 1000000) (ticks w) (reads w) (fds w)).

(** [duration_cast<seconds>(now - start).count()]: whole seconds, truncated. *)
Definition seconds_between (start now : Z) : Z := Z.quot (now - start) 1000000000.

(** ** run_stockfish *)

Definition stockfish_paths : list string :=
  [ "/usr/local/bin/stockfish";
    "/app/stockfish";
    "stockfish";
    "/opt/homebrew/bin/stockfish" ].

(** Lines 32-38: the value of [stockfish_path] after the [for] loop. *)
Fixpoint probe (e : Env) (paths : list string) : M string :=
  match paths with
  | [] => ret ""
  | path :: rest =>
      ok <- access e path ;;
      if ok then ret path else probe e rest
  end.

(** Lines 119-135 and 150-167: the two polling loops, which differ in the
    token they look for and in the number of seconds they allow.  The loop
    state is the accumulated [result] and the flag ([ready], [found_bestmove]). *)
Fixpoint poll (token : string) (limit : Z) (e : Env) (from_engine : Z)
    (start_time : Z) (fuel : nat) (result : string) (found : bool)
    : M (string * bool) :=
  if found then ret (result, found)
  else
    match fuel with
    | O => fun w => (OutOfFuel, w)
    | S fuel' =>
        got <- fgets e from_engine ;;
        let result :=
          match got with
          | Some buffer => result ++ Str.c_str buffer
          | None => result
          end in
        let found :=
          match got with
          | Some buffer => if Str.strstr buffer token then true else found
          | None => found
          end in
        now <- steady_now e ;;
        if seconds_between start_time now >? limit then ret (result, found)
        else
          sleep_for 10 ;;
          poll token limit e from_engine start_time fuel' result found
    end.

Definition run_stockfish (fuel : nat) (e : Env) (fen : string) : M string :=
  stockfish_path <- probe e stockfish_paths ;;
  if Str.empty stockfish_path then
    throw "Could not find stockfish executable in any of the expected paths."
  else
  parent_to_child <- pipe (pipe1 e) ;;
  match parent_to_child with
  | None => throw "Failed to create pipes"
  | Some (p2c_0, p2c_1) =>
  child_to_parent <- pipe (pipe2 e) ;;
  match child_to_parent with
  | None => throw "Failed to create pipes"
  | Some (c2p_0, c2p_1) =>
  pid <- fork e ;;
  if pid <? 0 then
    close p2c_0 ;; close p2c_1 ;; close c2p_0 ;; close c2p_1 ;;
    throw "Failed to fork process"
  else if pid =? 0 then
    close p2c_1 ;; dup2 p2c_0 0 ;; close p2c_0 ;;
    close c2p_0 ;; dup2 c2p_1 1 ;; close c2p_1 ;;
    execl e stockfish_path ;;
    perror "exec failed" ;;
    exit 1
  else
    close p2c_0 ;;
    close c2p_1 ;;
    set_nonblock c2p_0 ;;
    to_engine <- fdopen p2c_1 ;;
    from_engine <- fdopen c2p_0 ;;
    fprintf to_engine ("uci" ++ nl) ;;
    fflush to_engine ;;
    sleep_for 100 ;;
    fprintf to_engine ("setoption name Threads value " ++ fmt_d (hw_threads e) ++ nl) ;;
    fprintf to_engine ("setoption name Hash value 512" ++ nl) ;;
    fprintf to_engine ("setoption name Skill Level value 20" ++ nl) ;;
    fprintf to_engine ("setoption name MultiPV value 1" ++ nl) ;;
    fprintf to_engine ("isready" ++ nl) ;;
    fflush to_engine ;;
    start_time <- steady_now e ;;
    '(result, ready) <- poll "readyok" 5 e from_engine start_time fuel "" false ;;
    fprintf to_engine ("position fen " ++ Str.c_str fen ++ nl) ;;
    fflush to_engine ;;
    fprintf to_engine ("go movetime 1000" ++ nl) ;;
    fflush to_engine ;;
    let result := "" in
    start_time <- steady_now e ;;
    '(result, found_bestmove) <- poll "bestmove" 7 e from_engine start_time fuel result false ;;
    fprintf to_engine ("quit" ++ nl) ;;
    fflush to_engine ;;
    fclose to_engine ;;
    fclose from_engine ;;
    kill pid ;;
    waitpid e pid ;;
    ret result
  end end.

(** ** ChessSimulator::Move *)

(** [s.substr(pos, count)]; throws [std::out_of_range] when [pos > s.size()].
    The text of its [what()] is the library's; only its head is kept here. *)
Definition substr (s : string) (pos count : Z) : M string :=
  if Str.size s <? pos then throw "basic_string::substr"
  else ret (Str.take (Z.to_nat (Z.min count (Str.size s - pos)))
                     (Str.drop (Z.to_nat pos) s)).

(** Lines 193-208: what the [try] block does with the engine's output.
    [Some move] is the [return bestMove] inside the block; [None] is falling
    out of the block. *)
Definition parse (output : string) : M (option string) :=
  let bestmovePos := Str.find output "bestmove" 0 in
  if negb (bestmovePos =? Str.npos) then
    line <- substr output bestmovePos Str.npos ;;
    let spacePos := Str.find line " " 9 in
    let spacePos := if spacePos =? Str.npos then Str.size line else spacePos in
    bestMove <- substr line 9 (Str.wrap (spacePos - 9)) ;;
    ret (Some bestMove)
  else
    cerr "Error: 'bestmove' not found in stockfish output" ;;
    ret None.

(** The [try]/[catch] of lines 185-211 around a body, and the final
    [return ""]. *)
Definition guarded (body : M (option string)) : M string :=
  r <- try_catch body (fun what => cerr ("Error: " ++ what) ;; ret None) ;;
  match r with
  | Some bestMove => ret bestMove
  | None => ret ""
  end.

Definition Move (fuel : nat) (e : Env) (fen : string) : M string :=
  guarded (output <- run_stockfish fuel e fen ;; parse output).

(** The Result Parser on its own: what [Move] returns once [run_stockfish]
    has handed it [output]. *)
Definition extract (output : string) : string :=
  match guarded (parse output) init with
  | (Ret move, _) => move
  | _ => ""
  end.

(** ** Vocabulary of the statements *)

(** [pat] occurs somewhere in [s]. *)
Definition occurs (pat s : string) : Prop :=
  exists pre post, s = pre ++ pat ++ post.

(** The leftmost occurrence of [pat] in [s] starts right after [pre]. *)
Definition first_after (pre pat s : string) : Prop :=
  (exists post, s = pre ++ pat ++ post) /\
  forall pre' post', s = pre' ++ pat ++ post' ->
    (String.length pre <= String.length pre')%nat.

(** The characters [isspace] accepts. *)
Definition is_space (c : ascii) : bool :=
  let n := nat_of_ascii c in
  (n =? 32)%nat || ((9 <=? n)%nat && (n <=? 13)%nat).

(** A word: no white space inside. *)
Fixpoint word (s : string) : bool :=
  match s with
  | EmptyString => true
  | String c s' => negb (is_space c) && word s'
  end.

(** A UCI [bestmove] line for the move [tok], without its line terminator. *)
Definition bestmove_line (tok line : string) : Prop :=
  line = "bestmove " ++ tok \/
  exists reply, line = "bestmove " ++ tok ++ " ponder " ++ reply.

(** [text] has [line] as one of its lines. *)
Definition has_line (text line : string) : Prop :=
  exists before after,
    text = before ++ line ++ after /\
    (before = "" \/ exists b, before = b ++ nl) /\
    (after = "" \/ exists a, after = nl ++ a).

(** A string that fits a [std::string]. *)
Definition fits (s : string) : Prop := Str.size s < Str.size_mod.

(** The [k]-th chunk [fgets] delivers, as the C string the program sees
    (nothing when that call returns NULL). *)
Definition chunk (e : Env) (k : nat) : string :=
  match engine_out e k with
  | Some buffer => Str.c_str buffer
  | None => ""
  end.

(** What [n] consecutive [fgets] calls, from call number [from] on, add up to. *)
Fixpoint captured (e : Env) (from n : nat) : string :=
  match n with
  | O => ""
  | S n' => chunk e from ++ captured e (S from) n'
  end.

(** Does the [k]-th chunk on its own show [token] to [strstr]. *)
Definition has_token (e : Env) (token : string) (k : nat) : bool :=
  match engine_out e k with
  | Some buffer => Str.strstr buffer token
  | None => false
  end.

(** The engine's output never spells [token], however it is cut in chunks. *)
Definition never_emits (e : Env) (token : string) : Prop :=
  forall from n, ~ occurs token (captured e from n).

(** Some candidate path is executable. *)
Definition engine_installed (e : Env) : Prop :=
  exists p, In p stockfish_paths /\ can_exec e p = true.

(** The trace of the locator: the probes up to the first hit. *)
Fixpoint probes (e : Env) (paths : list string) : list event :=
  match paths with
  | [] => []
  | p :: rest =>
      EvAccess p (can_exec e p) :: (if can_exec e p then [] else probes e rest)
  end.

(** The path the locator settles on: the first executable candidate, the
    empty string when there is none. *)
Fixpoint located (e : Env) (paths : list string) : string :=
  match paths with
  | [] => ""
  | p :: rest => if can_exec e p then p else located e rest
  end.

(** The parent's side of a successful spawn, on the pipes [(a, b)] and
    [(c, d)] with the child [pid]. *)
Definition launch (a b c d pid : Z) : list event :=
  [ EvPipe (Some (a, b)); EvPipe (Some (c, d)); EvFork pid;
    EvClose a; EvClose d; EvNonblock c; EvFdopen b; EvFdopen c ].

(** Handshake and configuration, up to [isready]. *)
Definition greeting (e : Env) (to_engine : Z) : list event :=
  [ EvPrint to_engine ("uci" ++ nl); EvFlush to_engine; EvSleep 100;
    EvPrint to_engine ("setoption name Threads value " ++ fmt_d (hw_threads e) ++ nl);
    EvPrint to_engine ("setoption name Hash value 512" ++ nl);
    EvPrint to_engine ("setoption name Skill Level value 20" ++ nl);
    EvPrint to_engine ("setoption name MultiPV value 1" ++ nl);
    EvPrint to_engine ("isready" ++ nl); EvFlush to_engine ].

(** The Query phase. *)
Definition query (to_engine : Z) (fen : string) : list event :=
  [ EvPrint to_engine ("position fen " ++ Str.c_str fen ++ nl); EvFlush to_engine;
    EvPrint to_engine ("go movetime 1000" ++ nl); EvFlush to_engine ].

(** The round on which a polling loop stops: the read, the clock reading,
    and the sleep when it was not the deadline that stopped it. *)
Definition last_round (from_engine : Z) (got : option string)
    (start limit t : Z) : list event :=
  EvFgets from_engine got :: EvNow t
  :: (if seconds_between start t >? limit then [] else [EvSleep 10]).

(** What was handed to [fprintf], in order: the stream and the text. *)
Fixpoint printed (evs : list event) : list (Z * string) :=
  match evs with
  | [] => []
  | EvPrint f text :: rest => (f, text) :: printed rest
  | _ :: rest => printed rest
  end.

(** The steps of the shutdown sequence for the child [pid] behind the streams
    [to_engine] and [from_engine]. *)
Definition shutdown (to_engine from_engine pid : Z) : list event :=
  [ EvPrint to_engine ("quit" ++ nl); EvFlush to_engine;
    EvFclose to_engine; EvFclose from_engine;
    EvKill pid; EvWaitpid pid ].

(** Events that release a stream or the child, or tell the engine to quit. *)
Definition shutdown_step (ev : event) : bool :=
  match ev with
  | EvPrint _ text => String.eqb text ("quit" ++ nl)
  | EvFclose _ | EvKill _ | EvWaitpid _ => true
  | _ => false
  end.

(** [n] rounds of a polling loop that goes on, the first of them making
    the read number [from]: each one is a read, a clock reading that finds
    no more than [limit] whole seconds gone since [start], and the 10 ms
    sleep. *)
Inductive rounds (e : Env) (from_engine start limit : Z)
    : nat -> nat -> list event -> Prop :=
| rounds_none (from : nat) : rounds e from_engine start limit from O []
| rounds_more (from n : nat) (t : Z) (rest : list event) :
    seconds_between start t <= limit ->
    rounds e from_engine start limit (S from) n rest ->
    rounds e from_engine start limit from (S n)
      (EvFgets from_engine (engine_out e from) :: EvNow t :: EvSleep 10 :: rest).

(** How a call that has come to its [waitpid] ends: with [a] when the child
    exits, never when it does not. *)
Definition after_reaping {A : Type} (e : Env) (a : A) : outcome A :=
  if child_exits e then Ret a else Blocked.


(** The world [w] after the events [evs] were added to its trace. *)
Definition logged (w : World) (evs : list event) : World :=
  mkWorld (trace w ++ evs) (clock w) (ticks w) (reads w) (fds w).

(** Runs the straight-line system calls of the goal on its concrete world. *)
Ltac step :=
  cbn [bind pipe emit ret set_fds fork close set_nonblock fdopen fprintf fflush
       sleep_for steady_now fclose kill logged
       trace clock ticks reads fds].

(** A string without NUL characters. *)
Fixpoint nul_free (s : string) : bool :=
  match s with
  | EmptyString => true
  | String c s' => negb (Ascii.eqb c NUL) && nul_free s'
  end.


(** ** Sample runs *)

Definition startpos : string :=
  "rnbqkbnr/pppppppp/8/8/8/8/PPPPPPPP/RNBQKBNR w KQkq - 0 1".

Definition only_app (path : string) : bool := String.eqb path "/app/stockfish".

(** An engine that never writes anything. *)
Definition silent_engine : Env :=
  mkEnv only_app (Some (3, 4)) (Some (5, 6)) 4242 true 8
        (fun _ => None) (fun _ => 0%N) true.


(** An engine that answers [isready] at once and the search with a
    [bestmove] line carrying a ponder move. *)
Definition pondering_engine : Env :=
  mkEnv only_app (Some (3, 4)) (Some (5, 6)) 4242 true 8
        (fun k => match k with
                  | O => Some ("readyok" ++ nl)
                  | 1%nat => Some ("bestmove e2e4 ponder e7e5" ++ nl)
                  | _ => None
                  end)
        (fun _ => 0%N) true.

(** An engine whose [bestmove] line has no ponder move. *)
Definition terse_engine : Env :=
  mkEnv only_app (Some (3, 4)) (Some (5, 6)) 4242 true 8
        (fun k => match k with
                  | O => Some ("readyok" ++ nl)
                  | 1%nat => Some ("bestmove e2e4" ++ nl)
                  | _ => None
                  end)
        (fun _ => 0%N) true.


(** A machine without Stockfish. *)
Definition no_engine : Env :=
  mkEnv (fun _ => false) (Some (3, 4)) (Some (5, 6)) 4242 true 8
        (fun _ => None) (fun _ => 0%N) true.

(** A machine on which [fork] fails. *)
Definition fork_refused : Env :=
  mkEnv only_app (Some (3, 4)) (Some (5, 6)) (-1) true 8
        (fun _ => None) (fun _ => 0%N) true.

(** An output in which an [info] line mentions [bestmove] before the
    engine's answer. *)
Definition chatty_output : string :=
  "info string bestmove pending " ++ nl ++ "bestmove e2e4 ponder e7e5" ++ nl.

(** ** Further vocabulary *)

(** The part of [s] before its first space, all of it when it has none. *)
Fixpoint upto_space (s : string) : string :=
  match s with
  | EmptyString => EmptyString
  | String c s' =>
      if Ascii.eqb c " " then EmptyString else String c (upto_space s')
  end.

(** No space character in [s]. *)
Fixpoint space_free (s : string) : bool :=
  match s with
  | EmptyString => true
  | String c s' => negb (Ascii.eqb c " ") && space_free s'
  end.


(** What the child does between [fork] and [execl], on the pipes [(a, b)]
    and [(c, d)]. *)
Definition rewiring (a b c d : Z) : list event :=
  [ EvClose b; EvDup2 a 0; EvClose a; EvClose c; EvDup2 d 1; EvClose d ].

(** A machine on which the first [pipe] fails. *)
Definition first_pipe_refused : Env :=
  mkEnv only_app None (Some (5, 6)) 4242 true 8
        (fun _ => None) (fun _ => 0%N) true.

(** A machine on which the second [pipe] fails. *)
Definition second_pipe_refused : Env :=
  mkEnv only_app (Some (3, 4)) None 4242 true 8
        (fun _ => None) (fun _ => 0%N) true.

(** The child's side of a [fork], with an engine that cannot be executed
    after all. *)
Definition child_side : Env :=
  mkEnv only_app (Some (3, 4)) (Some (5, 6)) 0 false 8
        (fun _ => None) (fun _ => 0%N) true.


(** ** Strings *)

Section Strings.

Local Open Scope nat_scope.

Lemma app_nil_r (s : string) : s ++ "" = s.
Proof. induction s as [|c s IH]; simpl; congruence. Qed.

Lemma app_assoc (a b c : string) : (a ++ b) ++ c = a ++ b ++ c.
Proof. induction a as [|x a IH]; simpl; congruence. Qed.

Lemma length_app (a b : string) :
  String.length (a ++ b) = String.length a + String.length b.
Proof. induction a as [|x a IH]; simpl; congruence. Qed.

Lemma drop_app (a b : string) : Str.drop (String.length a) (a ++ b) = b.
Proof. induction a as [|x a IH]; simpl; [destruct b|]; auto. Qed.

Lemma take_app (a b : string) : Str.take (String.length a) (a ++ b) = a.
Proof. induction a as [|x a IH]; simpl; [destruct b|]; congruence. Qed.

Lemma take_all (n : nat) (s : string) : String.length s <= n -> Str.take n s = s.
Proof.
  revert n; induction s as [|c s IH]; intros [|n] H; simpl in *; try reflexivity.
  - lia.
  - f_equal; apply IH; lia.
Qed.

Lemma prefix_true (p s : string) :
  String.prefix p s = true <-> exists post, s = p ++ post.
Proof.
  revert s; induction p as [|c p IH]; intros s.
  - destruct s; simpl; split; eauto.
  - destruct s as [|d s]; simpl.
    + split; [easy | intros [post H]; discriminate].
    + destruct (ascii_dec c d) as [->|ne].
      * rewrite IH; split; intros [post H]; exists post; congruence.
      * split; [easy | intros [post H]; congruence].
Qed.

Lemma search_unfold (pat s : string) :
  Str.search pat s =
  if String.prefix pat s then Some 0
  else match s with
       | EmptyString => None
       | String _ s' => option_map S (Str.search pat s')
       end.
Proof. destruct s; reflexivity. Qed.

Lemma search_bound (pat s : string) (k : nat) :
  Str.search pat s = Some k ->
  exists pre post, s = pre ++ pat ++ post /\ String.length pre = k.
Proof.
  revert k; induction s as [|c s IH]; intros k; rewrite search_unfold;
    destruct (String.prefix pat _) eqn:P;
    try (intros [= <-]; apply prefix_true in P as [post E]; now exists "", post).
  destruct (Str.search pat s) as [j|] eqn:Sj; [|easy].
  intros [= <-]. destruct (IH j eq_refl) as (pre & post & -> & <-).
  now exists (String c pre), post.
Qed.

Lemma search_least (pat s : string) (k : nat) (pre post : string) :
  Str.search pat s = Some k -> s = pre ++ pat ++ post -> k <= String.length pre.
Proof.
  revert k pre; induction s as [|c s IH]; intros k pre; rewrite search_unfold;
    destruct (String.prefix pat _) eqn:P; try (intros [= <-]; lia).
  destruct (Str.search pat s) as [j|] eqn:Sj; [|easy].
  intros [= <-] E. destruct pre as [|d pre]; simpl in E.
  - assert (String.prefix pat (String c s) = true) by (apply prefix_true; eauto).
    congruence.
  - injection E as _ E. specialize (IH j pre eq_refl E). simpl; lia.
Qed.

Lemma search_none (pat s : string) : Str.search pat s = None <-> ~ occurs pat s.
Proof.
  split.
  - induction s as [|c s IH]; rewrite search_unfold;
      destruct (String.prefix pat _) eqn:P; try easy.
    + intros _ (pre & post & E). destruct pre; [|easy].
      assert (String.prefix pat "" = true) by (apply prefix_true; eauto). congruence.
    + destruct (Str.search pat s); [easy|].
      intros _ (pre & post & E). destruct pre as [|d pre]; simpl in E.
      * assert (String.prefix pat (String c s) = true) by (apply prefix_true; eauto).
        congruence.
      * injection E as _ E. apply IH; [reflexivity | now exists pre, post].
  - intros N. destruct (Str.search pat s) as [k|] eqn:Sk; [|reflexivity].
    destruct (search_bound _ _ _ Sk) as (pre & post & E & _).
    exfalso; apply N; now exists pre, post.
Qed.

Lemma search_first (pre pat s : string) :
  first_after pre pat s -> Str.search pat s = Some (String.length pre).
Proof.
  intros [[post E] least].
  destruct (Str.search pat s) as [k|] eqn:Sk.
  - f_equal. pose proof (search_least _ _ _ _ _ Sk E).
    destruct (search_bound _ _ _ Sk) as (pre' & post' & E' & L').
    specialize (least _ _ E'). lia.
  - apply search_none in Sk. exfalso; apply Sk; now exists pre, post.
Qed.


Lemma prefix_char (c d : ascii) (s : string) :
  String.prefix (String c "") (String d s) = Ascii.eqb c d.
Proof.
  change (String.prefix (String c "") (String d s))
    with (if ascii_dec c d then String.prefix "" s else false).
  destruct (ascii_dec c d) as [->|ne].
  - rewrite Ascii.eqb_refl. now destruct s.
  - symmetry. now apply Ascii.eqb_neq.
Qed.

(** Where a word ends: at the first blank after it, or with the text. *)
Lemma search_blank_after_word (tok rest : string) :
  word tok = true ->
  Str.search " " (tok ++ " " ++ rest) = Some (String.length tok).
Proof.
  intros W. induction tok as [|c tok IH].
  - rewrite search_unfold. cbn [append]. now rewrite prefix_char.
  - cbn [word] in W. apply andb_prop in W as [Wc W]. specialize (IH W).
    rewrite search_unfold. cbn [append String.length] in IH |- *.
    rewrite prefix_char.
    destruct (Ascii.eqb_spec " " c) as [<-|ne]; [vm_compute in Wc; discriminate|].
    now rewrite IH.
Qed.

Lemma search_blank_in_word (tok : string) :
  word tok = true -> Str.search " " tok = None.
Proof.
  intros W. induction tok as [|c tok IH]; [reflexivity|].
  cbn [word] in W. apply andb_prop in W as [Wc W]. specialize (IH W).
  rewrite search_unfold, prefix_char.
  destruct (Ascii.eqb_spec " " c) as [<-|ne]; [vm_compute in Wc; discriminate|].
  now rewrite IH.
Qed.

End Strings.

(** ** The Result Parser *)

Section Parser.

Lemma logged_nil (w : World) : logged w [] = w.
Proof. destruct w; unfold logged; simpl. now rewrite List.app_nil_r. Qed.


Lemma size_nonneg (s : string) : 0 <= Str.size s.
Proof. unfold Str.size; lia. Qed.

Lemma find_none (pat s : string) : ~ occurs pat s -> Str.find s pat 0 = Str.npos.
Proof.
  intros N. unfold Str.find. pose proof (size_nonneg s).
  destruct (Z.ltb_spec (Str.size s) 0); [lia|]. simpl.
  apply search_none in N. now rewrite N.
Qed.

Lemma find_first (pre pat s : string) :
  first_after pre pat s -> Str.find s pat 0 = Z.of_nat (String.length pre).
Proof.
  intros F. unfold Str.find. pose proof (size_nonneg s).
  destruct (Z.ltb_spec (Str.size s) 0); [lia|]. simpl.
  now rewrite (search_first _ _ _ F).
Qed.

(** [Move] on an output without [bestmove]: one diagnostic, no move. *)
Lemma guarded_parse_none (output : string) (w : World) :
  ~ occurs "bestmove" output ->
  guarded (parse output) w =
    (Ret "", logged w [EvCerr "Error: 'bestmove' not found in stockfish output"]).
Proof.
  intros N. unfold guarded, parse. rewrite (find_none _ _ N). reflexivity.
Qed.

Lemma extract_none (output : string) : ~ occurs "bestmove" output -> extract output = "".
Proof. intros N. unfold extract. now rewrite (guarded_parse_none _ _ N). Qed.

(** Whatever the output, the parse step ends in a returned string, leaves
    at most one line on [std::cerr], and does so whenever it has no move
    token to return. *)
Lemma guarded_parse (output : string) (w : World) :
  exists diag,
    guarded (parse output) w = (Ret (extract output), logged w diag) /\
    (diag = [] \/ (exists msg, diag = [EvCerr msg]) /\ extract output = "").
Proof.
  unfold extract, guarded, parse, try_catch, bind, substr, throw, ret, cerr, emit.
  destruct (negb _).
  - destruct (Str.size output <? _).
    + eexists; split; [reflexivity|]. right; eauto.
    + destruct (Str.size _ <? 9).
      * eexists; split; [reflexivity|]. right; eauto.
      * exists []. rewrite logged_nil. auto.
  - eexists; split; [reflexivity|]. right; eauto.
Qed.

End Parser.

Section ParserSteps.

Lemma substr_suffix (pre line : string) :
  fits (pre ++ line) ->
  substr (pre ++ line) (Z.of_nat (String.length pre)) Str.npos init = (Ret line, init).
Proof.
  intros F. unfold substr, fits, Str.size, Str.npos in *. rewrite length_app in *.
  destruct (Z.ltb_spec (Z.of_nat (String.length pre + String.length line))
              (Z.of_nat (String.length pre))); [lia|].
  rewrite Nat2Z.id, drop_app, take_all; [reflexivity|]. lia.
Qed.

(** Where [Move] puts [spacePos] on a line that starts with [bestmove],
    one separator and a word. *)
Lemma space_after_move (tok rest : string) :
  fits ("bestmove " ++ tok ++ rest) ->
  word tok = true ->
  rest = "" \/ (exists r, rest = " " ++ r) ->
  (if Str.find ("bestmove " ++ tok ++ rest) " " 9 =? Str.npos
   then Str.size ("bestmove " ++ tok ++ rest)
   else Str.find ("bestmove " ++ tok ++ rest) " " 9)
  = 9 + Z.of_nat (String.length tok).
Proof.
  intros F W End.
  assert (L : Str.size ("bestmove " ++ tok ++ rest)
              = 9 + Z.of_nat (String.length tok) + Z.of_nat (String.length rest)).
  { unfold Str.size. cbn [append String.length]. rewrite length_app. lia. }
  unfold fits in F. rewrite L in F. unfold Str.find. rewrite L.
  destruct (Z.ltb_spec (9 + Z.of_nat (String.length tok) + Z.of_nat (String.length rest)) 9);
    [lia|].
  change (Str.drop (Z.to_nat 9) ("bestmove " ++ tok ++ rest)) with (tok ++ rest).
  destruct End as [-> | [r ->]].
  - rewrite app_nil_r, (search_blank_in_word _ W). simpl. lia.
  - rewrite (search_blank_after_word _ _ W).
    destruct (Z.eqb_spec (9 + Z.of_nat (String.length tok)) Str.npos) as [E|_];
      [unfold Str.npos in E; lia | reflexivity].
Qed.
End ParserSteps.

Section Polling.

Lemma seconds_over (start t limit : Z) :
  0 <= limit ->
  (seconds_between start t >? limit) = true <-> (limit + 1) * 1000000000 <= t - start.
Proof.
  intros L. unfold seconds_between. rewrite Z.gtb_ltb, Z.ltb_lt.
  destruct (Z.lt_ge_cases (t - start) 0) as [neg|pos].
  - split; [|lia]. intros H.
    pose proof (Z.quot_opp_l (t - start) 1000000000 ltac:(lia)) as Q.
    pose proof (Z.quot_pos (- (t - start)) 1000000000 ltac:(lia) ltac:(lia)). lia.
  - rewrite Z.quot_div_nonneg by lia. split; intros H.
    + pose proof (Z.mul_div_le (t - start) 1000000000 ltac:(lia)). nia.
    + assert (limit + 1 <= (t - start) / 1000000000)
        by (apply Z.div_le_lower_bound; lia).
      lia.
Qed.

Lemma seconds_within (start t limit : Z) :
  0 <= limit ->
  (seconds_between start t >? limit) = false -> seconds_between start t <= limit.
Proof. intros _ H. rewrite Z.gtb_ltb in H. now apply Z.ltb_ge. Qed.

Lemma captured_next (e : Env) (from n : nat) (result : string) :
  (result ++ chunk e from) ++ captured e (S from) n
  = result ++ captured e from (S n).
Proof. simpl. apply app_assoc. Qed.

Variables (token : string) (limit : Z) (e : Env) (from_engine start : Z).
Hypothesis limit_nonneg : 0 <= limit.

Lemma poll_spec (fuel : nat) :
  forall (result : string) (w : World),
    (1 <= fuel)%nat ->
    (limit + 1) * 1000000000 - (clock w - start) <= (Z.of_nat fuel - 1) * 10000000 ->
    exists (n : nat) (earlier : list event) (t : Z) (w' : World),
      poll token limit e from_engine start fuel result false w
        = (Ret (result ++ captured e (reads w) (S n),
                has_token e token (reads w + n)), w') /\
      ((0 < n)%nat ->
       (Z.of_nat n - 1) * 10000000 < (limit + 1) * 1000000000 - (clock w - start)) /\
      (forall k, (k < n)%nat -> has_token e token (reads w + k) = false) /\
      (has_token e token (reads w + n) = false -> seconds_between start t > limit) /\
      rounds e from_engine start limit (reads w) n earlier /\
      trace w' = (trace w ++ earlier
                  ++ last_round from_engine (engine_out e (reads w + n)) start limit t)%list /\
      reads w' = (reads w + S n)%nat /\
      fds w' = fds w.
Proof.
  induction fuel as [|fuel' IH]; intros result w F R; [lia|].
  cbn [poll]. unfold bind at 1. unfold fgets at 1. unfold bind at 1. unfold steady_now at 1.
  cbv zeta. cbn [clock ticks reads trace fds].
  set (t := clock w + Z.of_N (lag e (ticks w))).
  assert (Ht : clock w <= t) by (subst t; lia).
  replace (match engine_out e (reads w) with
           | Some buffer => result ++ Str.c_str buffer
           | None => result
           end) with (result ++ chunk e (reads w))
    by (unfold chunk; destruct (engine_out e (reads w)); [reflexivity | apply app_nil_r]).
  replace (match engine_out e (reads w) with
           | Some buffer => if Str.strstr buffer token then true else false
           | None => false
           end) with (has_token e token (reads w))
    by (unfold has_token; destruct (engine_out e (reads w)) as [b|];
        [now destruct (Str.strstr b token) | reflexivity]).
  destruct (seconds_between start t >? limit) eqn:Over.
  - (* the deadline has passed: break *)
    exists O, [], t. eexists. rewrite Nat.add_0_r. cbn [captured].
    rewrite app_nil_r.
    split; [reflexivity|]. cbn [trace reads fds]. unfold last_round.
    split; [lia|]. split; [intros k Hk; lia|].
    split; [intros _; rewrite Z.gtb_ltb, Z.ltb_lt in Over; lia|].
    split; [constructor|].
    split; [now rewrite Over, <- List.app_assoc|].
    split; [lia | reflexivity].
  - unfold bind at 1. unfold sleep_for at 1. cbn [clock ticks reads trace fds].
    destruct (has_token e token (reads w)) eqn:Tok.
    + (* the token was in this chunk: the loop condition ends the loop *)
      exists O, [], t. eexists. rewrite Nat.add_0_r, Tok. cbn [captured].
      rewrite app_nil_r.
      replace (poll token limit e from_engine start fuel' (result ++ chunk e (reads w)) true)
        with (@ret (string * bool) (result ++ chunk e (reads w), true))
        by (destruct fuel'; reflexivity).
      split; [reflexivity|]. cbn [trace reads fds].
      unfold last_round. rewrite Over.
      split; [lia|]. split; [intros k Hk; lia|].
      split; [discriminate|].
      split; [constructor|].
      split; [now rewrite <- !List.app_assoc|].
      split; [lia | reflexivity].
    + (* another round *)
      assert (Within : t - start < (limit + 1) * 1000000000).
      { destruct (Z.lt_ge_cases (t - start) ((limit + 1) * 1000000000)); [assumption|].
        assert ((seconds_between start t >? limit) = true)
          by (apply seconds_over; [assumption | lia]).
        congruence. }
      match goal with
      | |- context [poll _ _ _ _ _ fuel' ?r false ?w1] =>
          destruct (IH r w1) as (n & earlier & t' & w' & Run & Fn & Quiet & Out & Earlier & Tr & Rd & Fd)
      end.
      { lia. }
      { cbn [clock]. lia. }
      cbn [reads trace fds] in *.
      exists (S n), ([EvFgets from_engine (engine_out e (reads w)); EvNow t; EvSleep 10] ++ earlier)%list, t', w'.
      replace (reads w + S n)%nat with (S (reads w) + n)%nat by lia.
      rewrite Run, captured_next.
      split; [reflexivity|].
      split; [cbn [clock] in Fn; lia|].
      split.
      { intros [|k] Hk; [now rewrite Nat.add_0_r|].
        replace (reads w + S k)%nat with (S (reads w) + k)%nat by lia. apply Quiet; lia. }
      split; [assumption|].
      split.
      { constructor; [now apply seconds_within | assumption]. }
      split.
      { rewrite Tr, <- !List.app_assoc. reflexivity. }
      split; [lia | assumption].
Qed.

End Polling.

(** ** The driver *)

Section Driver.

Variable e : Env.


Lemma probe_spec (paths : list string) (w : World) :
  probe e paths w = (Ret (located e paths), logged w (probes e paths)).
Proof.
  revert w; induction paths as [|p rest IH]; intros w; cbn [probe located probes].
  - unfold ret. now rewrite logged_nil.
  - unfold bind at 1, access, bind, emit, ret.
    destruct (can_exec e p).
    + reflexivity.
    + rewrite IH. unfold logged; cbn [trace clock ticks reads fds].
      now rewrite <- List.app_assoc.
Qed.

Lemma located_none (paths : list string) :
  (forall p, In p paths -> can_exec e p = false) ->
  located e paths = "" /\ probes e paths = map (fun p => EvAccess p false) paths.
Proof.
  induction paths as [|p rest IH]; intros N; cbn [located probes map]; [auto|].
  rewrite (N p) by (left; reflexivity).
  destruct IH as [-> ->]; [|auto]. intros q Hq; apply N; now right.
Qed.

Lemma located_first (before after : list string) (p : string) :
  (forall q, In q before -> can_exec e q = false) ->
  can_exec e p = true ->
  located e (before ++ p :: after) = p /\
  probes e (before ++ p :: after)
    = (map (fun q => EvAccess q false) before ++ [EvAccess p true])%list.
Proof.
  intros N Y. induction before as [|q before IH]; cbn [located probes map List.app].
  - now rewrite Y.
  - rewrite (N q) by (left; reflexivity).
    destruct IH as [-> ->]; [|auto]. intros r Hr; apply N; now right.
Qed.

Lemma located_installed :
  engine_installed e -> Str.empty (located e stockfish_paths) = false.
Proof.
  intros (p & In_p & Y). unfold stockfish_paths in *. cbn [located].
  repeat match goal with
         | |- context [if can_exec e ?q then _ else _] =>
             destruct (can_exec e q) eqn:?; [reflexivity|]
         end.
  cbn [In] in In_p. intuition (subst; congruence).
Qed.


(** Closing every descriptor of a list, in any order, empties it. *)
Lemma close_all (closed held : list Z) :
  incl held closed ->
  fold_left (fun l fd => remove Z.eq_dec fd l) closed held = [].
Proof.
  revert held; induction closed as [|fd closed IH]; intros held Sub; cbn [fold_left].
  - destruct held as [|x held]; [reflexivity|]. destruct (Sub x); now left.
  - apply IH. intros x In_x. apply in_remove in In_x as [In_x Ne].
    destruct (Sub x In_x); [congruence | assumption].
Qed.


Variables (fen : string) (fuel : nat) (a b c d : Z).
Hypothesis installed : engine_installed e.
Hypothesis first_pipe : pipe1 e = Some (a, b).
Hypothesis second_pipe : pipe2 e = Some (c, d).
Hypothesis forked : 0 < fork_pid e.
Hypothesis enough : (801 <= fuel)%nat.

Lemma parent_run :
  exists (n1 n2 : nat) (early1 early2 : list event) (t0 t1 t2 t3 : Z) (w : World),
    run_stockfish fuel e fen init = (after_reaping e (captured e (S n1) (S n2)), w) /\
    trace w = (probes e stockfish_paths ++ launch a b c d (fork_pid e)
               ++ greeting e b ++ [EvNow t0] ++ early1
               ++ last_round c (engine_out e n1) t0 5 t1
               ++ query b fen ++ [EvNow t2] ++ early2
               ++ last_round c (engine_out e (S n1 + n2)) t2 7 t3
               ++ shutdown b c (fork_pid e))%list /\
    fds w = [] /\
    rounds e c t0 5 O n1 early1 /\
    rounds e c t2 7 (S n1) n2 early2 /\
    (n1 <= 600)%nat /\ (n2 <= 800)%nat /\
    (forall k, (k < n1)%nat -> has_token e "readyok" k = false) /\
    (has_token e "readyok" n1 = false -> seconds_between t0 t1 > 5) /\
    (forall k, (k < n2)%nat -> has_token e "bestmove" (S n1 + k) = false) /\
    (has_token e "bestmove" (S n1 + n2) = false -> seconds_between t2 t3 > 7) /\
    reads w = (S n1 + S n2)%nat.
Proof.
  unfold run_stockfish. unfold bind at 1. rewrite probe_spec.
  rewrite (located_installed installed), first_pipe, second_pipe.
  step.
  destruct (Z.ltb_spec (fork_pid e) 0) as [|_]; [lia|].
  destruct (Z.eqb_spec (fork_pid e) 0) as [|_]; [lia|].
  step.
  unfold bind at 1.
  match goal with
  | |- context [poll "readyok" 5 e c ?s fuel "" false ?W] =>
      destruct (poll_spec "readyok" 5 e c s ltac:(lia) fuel "" W ltac:(lia))
        as (n1 & early1 & t1 & w1 & Run1 & Len1 & Quiet1 & Out1 & Early1 & Tr1 & Rd1 & Fd1);
      [cbn [clock]; lia|]; set (t0 := s) in *
  end.
  rewrite Run1. destruct w1 as [tr1 ck1 tk1 rd1 fd1].
  cbn [trace clock ticks reads fds init] in *. subst tr1 rd1 fd1.
  step.
  unfold bind at 1.
  match goal with
  | |- context [poll "bestmove" 7 e c ?s fuel "" false ?W] =>
      destruct (poll_spec "bestmove" 7 e c s ltac:(lia) fuel "" W ltac:(lia))
        as (n2 & early2 & t3 & w2 & Run2 & Len2 & Quiet2 & Out2 & Early2 & Tr2 & Rd2 & Fd2);
      [cbn [clock]; lia|]; set (t2 := s) in *
  end.
  rewrite Run2. destruct w2 as [tr2 ck2 tk2 rd2 fd2].
  cbn [trace clock ticks reads fds init] in *. subst tr2 rd2 fd2.
  step. unfold waitpid, after_reaping.
  exists n1, n2, early1, early2, t0, t1, t2, t3. eexists.
  split; [destruct (child_exits e); step; reflexivity|]. cbn [trace fds].
  split.
  { unfold launch, greeting, query, shutdown.
    rewrite <- !List.app_assoc. reflexivity. }
  split; [apply (close_all [a; d; b; c]); intros x; cbn [In]; tauto|].
  split; [assumption|]. split; [assumption|].
  split; [lia|]. split; [lia|].
  split; [assumption|]. split; [assumption|].
  split; [assumption|]. split; [assumption|].
  cbn [reads]. lia.
Qed.

End Driver.

(** ** ChessSimulator::Move around the driver *)

Section MoveSteps.

Variables (fuel : nat) (e : Env) (fen : string).

Lemma Move_of_return (w w' : World) (output : string) :
  run_stockfish fuel e fen w = (Ret output, w') ->
  Move fuel e fen w = guarded (parse output) w'.
Proof.
  intros Run. unfold Move, guarded, try_catch, bind. now rewrite Run.
Qed.

Lemma Move_of_throw (w w' : World) (what : string) :
  run_stockfish fuel e fen w = (Throw what, w') ->
  Move fuel e fen w = (Ret "", logged w' [EvCerr ("Error: " ++ what)]).
Proof.
  intros Run. unfold Move, guarded, try_catch, bind. now rewrite Run.
Qed.

Lemma Move_of_blocked (w w' : World) :
  run_stockfish fuel e fen w = (Blocked, w') ->
  Move fuel e fen w = (Blocked, w').
Proof.
  intros Run. unfold Move, guarded, try_catch, bind. now rewrite Run.
Qed.

Lemma Move_after_reaping (w w' : World) (output : string) :
  run_stockfish fuel e fen w = (after_reaping e output, w') ->
  exists diag,
    Move fuel e fen w
      = (after_reaping e (extract output),
         if child_exits e then logged w' diag else w') /\
    (diag = [] \/ (exists msg, diag = [EvCerr msg]) /\ extract output = "").
Proof.
  intros Run. destruct (guarded_parse output w') as (diag & Parsed & Diag).
  exists diag. split; [|exact Diag].
  unfold after_reaping in *. destruct (child_exits e).
  - rewrite (Move_of_return _ _ _ Run). exact Parsed.
  - exact (Move_of_blocked _ _ Run).
Qed.



End MoveSteps.

(** ** What the traces of the phases contain *)

Section Traces.

Lemma printed_app (x y : list event) : printed (x ++ y) = (printed x ++ printed y)%list.
Proof.
  induction x as [|ev x IH]; [reflexivity|].
  destruct ev; cbn [printed List.app]; rewrite ?IH; reflexivity.
Qed.

Lemma printed_probes (e : Env) (paths : list string) : printed (probes e paths) = [].
Proof.
  induction paths as [|p rest IH]; cbn [probes printed]; [reflexivity|].
  now destruct (can_exec e p).
Qed.

Lemma printed_rounds (e : Env) (f start limit : Z) (from n : nat) (evs : list event) :
  rounds e f start limit from n evs -> printed evs = [].
Proof. induction 1; cbn [printed]; auto. Qed.

Lemma calm_probes (e : Env) (paths : list string) :
  Forall (fun ev => shutdown_step ev = false) (probes e paths).
Proof.
  induction paths as [|p rest IH]; cbn [probes]; constructor; [reflexivity|].
  destruct (can_exec e p); [constructor | assumption].
Qed.

Lemma calm_rounds (e : Env) (f start limit : Z) (from n : nat) (evs : list event) :
  rounds e f start limit from n evs ->
  Forall (fun ev => shutdown_step ev = false) evs.
Proof. induction 1; repeat constructor; assumption. Qed.

Lemma calm_last_round (f : Z) (got : option string) (start limit t : Z) :
  Forall (fun ev => shutdown_step ev = false) (last_round f got start limit t).
Proof.
  unfold last_round. destruct (seconds_between start t >? limit); repeat constructor.
Qed.

Lemma printed_last_round (f : Z) (got : option string) (start limit t : Z) :
  printed (last_round f got start limit t) = [].
Proof. unfold last_round. now destruct (seconds_between start t >? limit). Qed.

Lemma c_str_nul_free (s : string) : nul_free s = true -> Str.c_str s = s.
Proof.
  induction s as [|ch s IH]; cbn [nul_free Str.c_str]; [reflexivity|].
  intros H. apply andb_prop in H as [Hc Hs].
  destruct (Ascii.eqb ch NUL); [discriminate|]. now rewrite IH.
Qed.

Lemma has_token_occurs (e : Env) (token : string) (k : nat) :
  has_token e token k = true -> occurs token (captured e k 1).
Proof.
  unfold has_token, captured, chunk, Str.strstr.
  destruct (engine_out e k) as [buffer|]; [|discriminate].
  destruct (Str.search token (Str.c_str buffer)) as [j|] eqn:Found; [|discriminate].
  intros _. destruct (search_bound _ _ _ Found) as (pre & post & E & _).
  exists pre, post. now rewrite app_nil_r.
Qed.

Lemma never_emits_quiet (e : Env) (token : string) :
  never_emits e token -> forall k, has_token e token k = false.
Proof.
  intros Never k. destruct (has_token e token k) eqn:T; [|reflexivity].
  destruct (Never k 1%nat). now apply has_token_occurs.
Qed.

Lemma first_after_search (pre pat post : string) :
  Str.search pat (pre ++ pat ++ post) = Some (String.length pre) ->
  first_after pre pat (pre ++ pat ++ post).
Proof.
  intros Found. split; [now exists post|].
  intros pre' post' E. exact (search_least _ _ _ _ _ Found E).
Qed.

Lemma captured_silent (e : Env) :
  (forall k, engine_out e k = None) -> forall from n, captured e from n = "".
Proof.
  intros Silent from n; revert from.
  induction n as [|n IH]; intros from; cbn [captured]; [reflexivity|].
  unfold chunk. now rewrite Silent, IH.
Qed.

End Traces.

(** ** The Result Parser: what [Move] makes of the engine's output *)

(** C1, as the code has it.  When the leftmost occurrence of [bestmove] in
    the output is the one that opens the engine's answer, and the move after
    it is a word followed by a blank or by the end of the output, the parse
    step of [Move] returns exactly that word, whatever comes before the
    answer and whatever follows the blank. *)
Theorem extract_first_bestmove (pre tok rest : string) :
  fits (pre ++ "bestmove " ++ tok ++ rest) ->
  first_after pre "bestmove" (pre ++ "bestmove " ++ tok ++ rest) ->
  word tok = true ->
  rest = "" \/ (exists r, rest = " " ++ r) ->
  extract (pre ++ "bestmove " ++ tok ++ rest) = tok.
Proof.
  intros F First W End.
  assert (Lpre : Str.size (pre ++ "bestmove " ++ tok ++ rest)
                 = Z.of_nat (String.length pre) + Str.size ("bestmove " ++ tok ++ rest)).
  { unfold Str.size. rewrite length_app. lia. }
  assert (Lline : Str.size ("bestmove " ++ tok ++ rest)
              = 9 + Z.of_nat (String.length tok) + Z.of_nat (String.length rest)).
  { unfold Str.size. cbn [append String.length]. rewrite length_app. lia. }
  assert (F' : fits ("bestmove " ++ tok ++ rest)) by (unfold fits in *; lia).
  unfold extract, guarded, parse.
  rewrite (find_first _ _ _ First).
  destruct (Z.eqb_spec (Z.of_nat (String.length pre)) Str.npos) as [E|_].
  { unfold fits, Str.npos in *. lia. }
  cbn [negb]. unfold try_catch, bind at 1 2.
  rewrite (substr_suffix _ _ F), (space_after_move _ _ F' W End).
  unfold bind, substr. rewrite Lline.
  destruct (Z.ltb_spec (9 + Z.of_nat (String.length tok) + Z.of_nat (String.length rest)) 9);
    [lia|].
  change (Str.drop (Z.to_nat 9) ("bestmove " ++ tok ++ rest)) with (tok ++ rest).
  unfold Str.wrap. unfold fits in F'. rewrite Lline in F'.
  rewrite Z.mod_small by lia.
  replace (Z.to_nat (Z.min _ _)) with (String.length tok) by lia.
  now rewrite take_app.
Qed.

Lemma extract_first_bestmove_witness :
  fits (("info depth 1" ++ nl) ++ "bestmove " ++ "e2e4" ++ " ponder e7e5" ++ nl) /\
  first_after ("info depth 1" ++ nl) "bestmove"
    (("info depth 1" ++ nl) ++ "bestmove " ++ "e2e4" ++ " ponder e7e5" ++ nl) /\
  word "e2e4" = true /\
  (" ponder e7e5" ++ nl = "" \/ (exists r, " ponder e7e5" ++ nl = " " ++ r)) /\
  extract (("info depth 1" ++ nl) ++ "bestmove " ++ "e2e4" ++ " ponder e7e5" ++ nl)
    = "e2e4".
Proof.
  assert (F : fits (("info depth 1" ++ nl) ++ "bestmove " ++ "e2e4" ++ " ponder e7e5" ++ nl))
    by reflexivity.
  assert (A : first_after ("info depth 1" ++ nl) "bestmove"
                (("info depth 1" ++ nl) ++ "bestmove " ++ "e2e4" ++ " ponder e7e5" ++ nl))
    by (apply (first_after_search ("info depth 1" ++ nl) "bestmove"
                 (" e2e4" ++ " ponder e7e5" ++ nl)); reflexivity).
  assert (W : word "e2e4" = true) by reflexivity.
  assert (R : " ponder e7e5" ++ nl = "" \/ (exists r, " ponder e7e5" ++ nl = " " ++ r))
    by (right; exists ("ponder e7e5" ++ nl); reflexivity).
  split; [exact F|]. split; [exact A|]. split; [exact W|]. split; [exact R|].
  exact (extract_first_bestmove ("info depth 1" ++ nl) "e2e4" (" ponder e7e5" ++ nl) F A W R).
Defined.

(** C1 as stated fails: the text before the answer matters.  An [info] line
    that mentions [bestmove] makes the parser answer with the word after
    that mention. *)
Lemma extract_earlier_mention_wins :
  has_line chatty_output "bestmove e2e4 ponder e7e5" /\
  bestmove_line "e2e4" "bestmove e2e4 ponder e7e5" /\
  word "e2e4" = true /\
  extract chatty_output = "pending" /\
  extract chatty_output <> "e2e4".
Proof.
  split.
  { exists ("info string bestmove pending " ++ nl), nl. split; [reflexivity|].
    split; right; [exists "info string bestmove pending " | exists ""]; reflexivity. }
  split; [right; exists "e7e5"; reflexivity|].
  split; [reflexivity|].
  split; [reflexivity | discriminate].
Qed.

(** C8: the parser ends the move at the first blank only.  A [bestmove]
    line without a ponder move ends with its newline, as [fgets] delivers
    it, and the newline stays in the move: [Move] returns [e2e4] followed by
    a line feed.  The two examples of the claim do hold. *)
Theorem extract_keeps_line_end :
  has_line ("bestmove e2e4" ++ nl) "bestmove e2e4" /\
  extract ("bestmove e2e4" ++ nl) = "e2e4" ++ nl /\
  fst (Move 801 terse_engine startpos init) = Ret ("e2e4" ++ nl) /\
  extract "bestmove e2e4 ponder e7e5" = "e2e4" /\
  extract "bestmove e2e4" = "e2e4".
Proof.
  split.
  { exists "", nl. split; [reflexivity|]. split; [now left | right; now exists ""]. }
  repeat split; vm_compute; reflexivity.
Qed.

(** ** The Engine Locator and the spawn *)

(** C5.  The locator probes the candidates in their fixed order for execute
    permission and settles on the first that has it, probing no further;
    when none has it, [run_stockfish] throws the error that says so after
    the four probes and nothing else: no pipe, no child. *)
Theorem locator_first_executable (e : Env) (fuel : nat) (fen : string) :
  (forall before p after,
     stockfish_paths = (before ++ p :: after)%list ->
     (forall q, In q before -> can_exec e q = false) ->
     can_exec e p = true ->
     probe e stockfish_paths init
       = (Ret p, logged init (map (fun q => EvAccess q false) before
                              ++ [EvAccess p true]))) /\
  ((forall p, In p stockfish_paths -> can_exec e p = false) ->
   run_stockfish fuel e fen init
     = (Throw "Could not find stockfish executable in any of the expected paths.",
        logged init (map (fun p => EvAccess p false) stockfish_paths))).
Proof.
  split.
  - intros before p after Split Before Here. rewrite probe_spec, Split.
    now destruct (located_first e before after p Before Here) as [-> ->].
  - intros Nowhere. unfold run_stockfish. unfold bind at 1. rewrite probe_spec.
    now destruct (located_none e stockfish_paths Nowhere) as [-> ->].
Qed.

Lemma locator_first_executable_witness :
  (stockfish_paths = (["/usr/local/bin/stockfish"] ++ "/app/stockfish"
                       :: ["stockfish"; "/opt/homebrew/bin/stockfish"])%list /\
   (forall q, In q ["/usr/local/bin/stockfish"] -> can_exec silent_engine q = false) /\
   can_exec silent_engine "/app/stockfish" = true /\
   probe silent_engine stockfish_paths init
     = (Ret "/app/stockfish",
        logged init [EvAccess "/usr/local/bin/stockfish" false;
                     EvAccess "/app/stockfish" true])) /\
  ((forall p, In p stockfish_paths -> can_exec no_engine p = false) /\
   run_stockfish 801 no_engine startpos init
     = (Throw "Could not find stockfish executable in any of the expected paths.",
        logged init (map (fun p => EvAccess p false) stockfish_paths))).
Proof.
  assert (Split : stockfish_paths
                  = (["/usr/local/bin/stockfish"] ++ "/app/stockfish"
                      :: ["stockfish"; "/opt/homebrew/bin/stockfish"])%list)
    by reflexivity.
  assert (Before : forall q, In q ["/usr/local/bin/stockfish"] ->
                             can_exec silent_engine q = false)
    by (intros q [<- | []]; reflexivity).
  assert (Here : can_exec silent_engine "/app/stockfish" = true) by reflexivity.
  assert (Nowhere : forall p, In p stockfish_paths -> can_exec no_engine p = false)
    by (intros p _; reflexivity).
  split.
  - split; [exact Split|]. split; [exact Before|]. split; [exact Here|].
    exact (proj1 (locator_first_executable silent_engine 801 startpos)
             _ _ _ Split Before Here).
  - split; [exact Nowhere|].
    exact (proj2 (locator_first_executable no_engine 801 startpos) Nowhere).
Defined.

(** C10.  When [fork] fails after both pipes were created, the four pipe
    descriptors are closed, in the order read end and write end of the
    first pipe, then of the second, before the error is thrown; the process
    holds no descriptor of the call afterwards. *)
Theorem fork_failure_closes_pipes (e : Env) (fuel : nat) (fen : string) (a b c d : Z) :
  engine_installed e ->
  pipe1 e = Some (a, b) ->
  pipe2 e = Some (c, d) ->
  fork_pid e < 0 ->
  exists w,
    run_stockfish fuel e fen init = (Throw "Failed to fork process", w) /\
    trace w = (probes e stockfish_paths
               ++ [EvPipe (Some (a, b)); EvPipe (Some (c, d)); EvFork (fork_pid e);
                   EvClose a; EvClose b; EvClose c; EvClose d])%list /\
    fds w = [].
Proof.
  intros Installed P1 P2 Neg.
  unfold run_stockfish. unfold bind at 1. rewrite probe_spec.
  rewrite (located_installed e Installed), P1, P2.
  cbn [bind pipe emit ret set_fds fork logged trace clock ticks reads fds].
  destruct (Z.ltb_spec (fork_pid e) 0) as [_|]; [|lia].
  cbn [bind close emit ret set_fds throw logged trace clock ticks reads fds].
  eexists. split; [reflexivity|]. cbn [trace fds]. split.
  - rewrite <- !List.app_assoc. reflexivity.
  - apply (close_all [a; b; c; d]). intros x; cbn [In]; tauto.
Qed.

Lemma fork_failure_closes_pipes_witness :
  engine_installed fork_refused /\
  pipe1 fork_refused = Some (3, 4) /\
  pipe2 fork_refused = Some (5, 6) /\
  fork_pid fork_refused < 0 /\
  exists w,
    run_stockfish 801 fork_refused startpos init = (Throw "Failed to fork process", w) /\
    trace w = (probes fork_refused stockfish_paths
               ++ [EvPipe (Some (3, 4)); EvPipe (Some (5, 6));
                   EvFork (fork_pid fork_refused);
                   EvClose 3; EvClose 4; EvClose 5; EvClose 6])%list /\
    fds w = [].
Proof.
  assert (Installed : engine_installed fork_refused)
    by (exists "/app/stockfish"; split; [right; left; reflexivity | reflexivity]).
  assert (Neg : fork_pid fork_refused < 0) by reflexivity.
  split; [exact Installed|]. split; [reflexivity|]. split; [reflexivity|].
  split; [exact Neg|].
  exact (fork_failure_closes_pipes fork_refused 801 startpos 3 4 5 6
           Installed eq_refl eq_refl Neg).
Defined.

(** ** The protocol, once the engine runs *)

(** C3.  After a successful spawn the shutdown sequence (print [quit],
    flush, close both streams, signal the child, reap it) is the last thing
    [run_stockfish] does before it returns, and nothing before it, and
    nothing [Move] does after it, is a step of that sequence: it runs
    exactly once, whichever way the two waits ended and whatever the parse
    step makes of the output.  No descriptor of the call stays open.  The
    call returns when the child exits; the sequence has run in the same way
    when it does not. *)
Theorem shutdown_exactly_once (e : Env) (fen : string) (fuel : nat) (a b c d : Z) :
  engine_installed e ->
  pipe1 e = Some (a, b) ->
  pipe2 e = Some (c, d) ->
  0 < fork_pid e ->
  (801 <= fuel)%nat ->
  exists output w before move diag,
    run_stockfish fuel e fen init = (after_reaping e output, w) /\
    trace w = (before ++ shutdown b c (fork_pid e))%list /\
    Forall (fun ev => shutdown_step ev = false) before /\
    fds w = [] /\
    Move fuel e fen init
      = (after_reaping e move, if child_exits e then logged w diag else w) /\
    Forall (fun ev => shutdown_step ev = false) diag.
Proof.
  intros Installed P1 P2 Forked Enough.
  destruct (parent_run e fen fuel a b c d Installed P1 P2 Forked Enough)
    as (n1 & n2 & early1 & early2 & t0 & t1 & t2 & t3 & w & Run & Tr & Fd
        & R1 & R2 & _).
  destruct (Move_after_reaping fuel e fen init w _ Run) as (diag & Parsed & Diag).
  exists (captured e (S n1) (S n2)), w.
  exists (probes e stockfish_paths ++ launch a b c d (fork_pid e)
          ++ greeting e b ++ [EvNow t0] ++ early1
          ++ last_round c (engine_out e n1) t0 5 t1
          ++ query b fen ++ [EvNow t2] ++ early2
          ++ last_round c (engine_out e (S n1 + n2)) t2 7 t3)%list.
  exists (extract (captured e (S n1) (S n2))), diag.
  split; [exact Run|].
  split; [rewrite Tr, <- !List.app_assoc; reflexivity|].
  split.
  { repeat (apply Forall_app; split);
      try apply calm_probes; try apply calm_last_round;
      try (eapply calm_rounds; eassumption);
      repeat constructor. }
  split; [exact Fd|].
  split; [exact Parsed|].
  destruct Diag as [-> | [[msg ->] _]]; repeat constructor.
Qed.

Lemma shutdown_exactly_once_witness :
  engine_installed pondering_engine /\
  pipe1 pondering_engine = Some (3, 4) /\
  pipe2 pondering_engine = Some (5, 6) /\
  0 < fork_pid pondering_engine /\
  (801 <= 801)%nat /\
  exists output w before move diag,
    run_stockfish 801 pondering_engine startpos init
      = (after_reaping pondering_engine output, w) /\
    trace w = (before ++ shutdown 4 5 (fork_pid pondering_engine))%list /\
    Forall (fun ev => shutdown_step ev = false) before /\
    fds w = [] /\
    Move 801 pondering_engine startpos init
      = (after_reaping pondering_engine move,
         if child_exits pondering_engine then logged w diag else w) /\
    Forall (fun ev => shutdown_step ev = false) diag.
Proof.
  assert (Installed : engine_installed pondering_engine)
    by (exists "/app/stockfish"; split; [right; left; reflexivity | reflexivity]).
  assert (Forked : 0 < fork_pid pondering_engine) by reflexivity.
  assert (Enough : (801 <= 801)%nat) by apply le_n.
  split; [exact Installed|]. split; [reflexivity|]. split; [reflexivity|].
  split; [exact Forked|]. split; [exact Enough|].
  exact (shutdown_exactly_once pondering_engine startpos 801 3 4 5 6
           Installed eq_refl eq_refl Forked Enough).
Defined.

(** C9.  A call that reaches teardown has written to the engine's input,
    in this order and nothing else: [uci], the four [setoption] lines,
    [isready], [position fen] with the caller's position, [go movetime 1000]
    and [quit].  The position is printed through [%s] from [fen.c_str()]:
    it is the caller's string as it stands for every string that is text,
    that is, has no NUL character in it. *)
Theorem commands_in_order (e : Env) (fen : string) (fuel : nat) (a b c d : Z) :
  engine_installed e ->
  pipe1 e = Some (a, b) ->
  pipe2 e = Some (c, d) ->
  0 < fork_pid e ->
  (801 <= fuel)%nat ->
  nul_free fen = true ->
  exists output w,
    run_stockfish fuel e fen init = (after_reaping e output, w) /\
    printed (trace w) =
      map (pair b)
        [ "uci" ++ nl;
          "setoption name Threads value " ++ fmt_d (hw_threads e) ++ nl;
          "setoption name Hash value 512" ++ nl;
          "setoption name Skill Level value 20" ++ nl;
          "setoption name MultiPV value 1" ++ nl;
          "isready" ++ nl;
          "position fen " ++ fen ++ nl;
          "go movetime 1000" ++ nl;
          "quit" ++ nl ].
Proof.
  intros Installed P1 P2 Forked Enough Text.
  destruct (parent_run e fen fuel a b c d Installed P1 P2 Forked Enough)
    as (n1 & n2 & early1 & early2 & t0 & t1 & t2 & t3 & w & Run & Tr & _
        & R1 & R2 & _).
  exists (captured e (S n1) (S n2)), w. split; [exact Run|].
  rewrite Tr, !printed_app, printed_probes, !printed_last_round,
    (printed_rounds _ _ _ _ _ _ _ R1), (printed_rounds _ _ _ _ _ _ _ R2).
  unfold query. rewrite (c_str_nul_free _ Text). reflexivity.
Qed.

Lemma commands_in_order_witness :
  engine_installed pondering_engine /\
  pipe1 pondering_engine = Some (3, 4) /\
  pipe2 pondering_engine = Some (5, 6) /\
  0 < fork_pid pondering_engine /\
  (801 <= 801)%nat /\
  nul_free startpos = true /\
  exists output w,
    run_stockfish 801 pondering_engine startpos init
      = (after_reaping pondering_engine output, w) /\
    printed (trace w) =
      map (pair 4)
        [ "uci" ++ nl;
          "setoption name Threads value " ++ fmt_d (hw_threads pondering_engine) ++ nl;
          "setoption name Hash value 512" ++ nl;
          "setoption name Skill Level value 20" ++ nl;
          "setoption name MultiPV value 1" ++ nl;
          "isready" ++ nl;
          "position fen " ++ startpos ++ nl;
          "go movetime 1000" ++ nl;
          "quit" ++ nl ].
Proof.
  assert (Installed : engine_installed pondering_engine)
    by (exists "/app/stockfish"; split; [right; left; reflexivity | reflexivity]).
  assert (Forked : 0 < fork_pid pondering_engine) by reflexivity.
  assert (Enough : (801 <= 801)%nat) by apply le_n.
  assert (Text : nul_free startpos = true) by reflexivity.
  split; [exact Installed|]. split; [reflexivity|]. split; [reflexivity|].
  split; [exact Forked|]. split; [exact Enough|]. split; [exact Text|].
  exact (commands_in_order pondering_engine startpos 801 3 4 5 6
           Installed eq_refl eq_refl Forked Enough Text).
Defined.

(** C7.  With an engine that never says [readyok] the Ready-Wait loop
    polls, sleeping 10 ms between reads, until a clock reading finds more
    than 5 whole seconds gone since the loop began, which takes at most 601
    reads; the very next thing the driver does is the Query phase:
    [position fen] and [go movetime 1000], each flushed. *)
Theorem ready_timeout_is_not_fatal (e : Env) (fen : string) (fuel : nat) (a b c d : Z) :
  engine_installed e ->
  pipe1 e = Some (a, b) ->
  pipe2 e = Some (c, d) ->
  0 < fork_pid e ->
  (801 <= fuel)%nat ->
  never_emits e "readyok" ->
  exists n1 early1 t0 t1 after output w,
    run_stockfish fuel e fen init = (after_reaping e output, w) /\
    trace w = (probes e stockfish_paths ++ launch a b c d (fork_pid e)
               ++ greeting e b ++ [EvNow t0] ++ early1
               ++ [EvFgets c (engine_out e n1); EvNow t1]
               ++ query b fen ++ after)%list /\
    rounds e c t0 5 O n1 early1 /\
    seconds_between t0 t1 > 5 /\
    (n1 <= 600)%nat.
Proof.
  intros Installed P1 P2 Forked Enough Never.
  destruct (parent_run e fen fuel a b c d Installed P1 P2 Forked Enough)
    as (n1 & n2 & early1 & early2 & t0 & t1 & t2 & t3 & w & Run & Tr & _
        & R1 & _ & Few1 & _ & _ & Late1 & _).
  specialize (Late1 (never_emits_quiet _ _ Never n1)).
  exists n1, early1, t0, t1. eexists. exists (captured e (S n1) (S n2)), w.
  split; [exact Run|].
  split; [|repeat split; assumption].
  rewrite Tr. unfold last_round at 1.
  replace (seconds_between t0 t1 >? 5) with true
    by (symmetry; apply Z.gtb_lt; lia).
  reflexivity.
Qed.

Lemma ready_timeout_is_not_fatal_witness :
  engine_installed silent_engine /\
  pipe1 silent_engine = Some (3, 4) /\
  pipe2 silent_engine = Some (5, 6) /\
  0 < fork_pid silent_engine /\
  (801 <= 801)%nat /\
  never_emits silent_engine "readyok" /\
  exists n1 early1 t0 t1 after output w,
    run_stockfish 801 silent_engine startpos init
      = (after_reaping silent_engine output, w) /\
    trace w = (probes silent_engine stockfish_paths
               ++ launch 3 4 5 6 (fork_pid silent_engine)
               ++ greeting silent_engine 4 ++ [EvNow t0] ++ early1
               ++ [EvFgets 5 (engine_out silent_engine n1); EvNow t1]
               ++ query 4 startpos ++ after)%list /\
    rounds silent_engine 5 t0 5 O n1 early1 /\
    seconds_between t0 t1 > 5 /\
    (n1 <= 600)%nat.
Proof.
  assert (Installed : engine_installed silent_engine)
    by (exists "/app/stockfish"; split; [right; left; reflexivity | reflexivity]).
  assert (Forked : 0 < fork_pid silent_engine) by reflexivity.
  assert (Enough : (801 <= 801)%nat) by apply le_n.
  assert (Never : never_emits silent_engine "readyok").
  { intros from n. rewrite (captured_silent silent_engine (fun _ => eq_refl)).
    apply search_none. reflexivity. }
  split; [exact Installed|]. split; [reflexivity|]. split; [reflexivity|].
  split; [exact Forked|]. split; [exact Enough|]. split; [exact Never|].
  exact (ready_timeout_is_not_fatal silent_engine startpos 801 3 4 5 6
           Installed eq_refl eq_refl Forked Enough Never).
Defined.







(** ** The invocation boundary *)



(** ** More on the Result Parser *)

Section ParserAnatomy.

Lemma take_to_blank (body : string) :
  Str.take (match Str.search " " body with
            | Some k => k
            | None => String.length body
            end) body
  = upto_space body.
Proof.
  induction body as [|ch body IH]; [reflexivity|].
  rewrite search_unfold, prefix_char. cbn [upto_space].
  rewrite (Ascii.eqb_sym ch " ").
  destruct (Ascii.eqb " " ch); [reflexivity|].
  destruct (Str.search " " body) as [k|]; cbn [option_map String.length Str.take];
    now rewrite IH.
Qed.

Lemma upto_space_free (s : string) : space_free (upto_space s) = true.
Proof.
  induction s as [|ch s IH]; [reflexivity|]. cbn [upto_space].
  destruct (Ascii.eqb ch " ") eqn:E; [reflexivity|].
  cbn [space_free]. now rewrite E, IH.
Qed.

Lemma substr_at (s : string) (pos count : Z) (w : World) :
  pos <= Str.size s ->
  substr s pos count w
  = (Ret (Str.take (Z.to_nat (Z.min count (Str.size s - pos)))
                   (Str.drop (Z.to_nat pos) s)), w).
Proof.
  intros In_range. unfold substr.
  destruct (Z.ltb_spec (Str.size s) pos); [lia | reflexivity].
Qed.

Lemma blank_within (body : string) (k : nat) :
  Str.search " " body = Some k -> (k < String.length body)%nat.
Proof.
  intros Found. destruct (search_bound _ _ _ Found) as (pre & post & -> & <-).
  rewrite length_app. cbn [append String.length]. lia.
Qed.

Lemma occurs_first (pat s : string) :
  occurs pat s -> exists pre post, s = pre ++ pat ++ post /\ first_after pre pat s.
Proof.
  intros Occ. destruct (Str.search pat s) as [k|] eqn:Found.
  - destruct (search_bound _ _ _ Found) as (pre & post & -> & <-).
    exists pre, post. split; [reflexivity|]. now apply first_after_search.
  - apply search_none in Found. contradiction.
Qed.

End ParserAnatomy.

Section ParserEdges.

(** Where [Move] cuts the line: at the first space after the keyword and
    one more character, or at the end of the line. *)
Lemma parse_after_keyword (pre body : string) (sep : ascii) (w : World) :
  fits (pre ++ "bestmove" ++ String sep body) ->
  first_after pre "bestmove" (pre ++ "bestmove" ++ String sep body) ->
  guarded (parse (pre ++ "bestmove" ++ String sep body)) w
  = (Ret (upto_space body), w).
Proof.
  intros F First.
  assert (Lline : Str.size ("bestmove" ++ String sep body)
                  = 9 + Z.of_nat (String.length body)).
  { unfold Str.size. cbn [append String.length]. lia. }
  assert (Lall : Str.size (pre ++ "bestmove" ++ String sep body)
                 = Z.of_nat (String.length pre) + 9 + Z.of_nat (String.length body)).
  { unfold Str.size in *. rewrite length_app. lia. }
  unfold fits, Str.size_mod in F. rewrite Lall in F.
  unfold guarded, parse. rewrite (find_first _ _ _ First).
  destruct (Z.eqb_spec (Z.of_nat (String.length pre)) Str.npos) as [E|_];
    [unfold Str.npos, Str.size_mod in E; lia|].
  cbn [negb]. unfold try_catch, bind at 1 2.
  rewrite substr_at by lia. rewrite Lall, Nat2Z.id, drop_app.
  rewrite take_all
    by (unfold Str.npos, Str.size_mod; cbn [append String.length]; lia).
  unfold bind. rewrite substr_at by lia. rewrite Lline.
  change (Str.drop (Z.to_nat 9) ("bestmove" ++ String sep body)) with body.
  unfold Str.find. rewrite Lline.
  destruct (Z.ltb_spec (9 + Z.of_nat (String.length body)) 9); [lia|].
  change (Str.drop (Z.to_nat 9) ("bestmove" ++ String sep body)) with body.
  rewrite <- (take_to_blank body).
  destruct (Str.search " " body) as [k|] eqn:Blank.
  - pose proof (blank_within _ _ Blank).
    destruct (Z.eqb_spec (9 + Z.of_nat k) Str.npos) as [E|_];
      [unfold Str.npos, Str.size_mod in E; lia|].
    unfold Str.wrap, Str.size_mod. rewrite Z.mod_small by lia.
    replace (Z.to_nat (Z.min _ _)) with k by lia. reflexivity.
  - rewrite Z.eqb_refl.
    unfold Str.wrap, Str.size_mod. rewrite Z.mod_small by lia.
    replace (Z.to_nat (Z.min _ _)) with (String.length body) by lia. reflexivity.
Qed.

(** An output that ends with its first [bestmove]: [substr] throws. *)
Lemma parse_bare_keyword (pre : string) (w : World) :
  fits (pre ++ "bestmove") ->
  first_after pre "bestmove" (pre ++ "bestmove") ->
  parse (pre ++ "bestmove") w = (Throw "basic_string::substr", w).
Proof.
  intros F First.
  assert (Lall : Str.size (pre ++ "bestmove") = Z.of_nat (String.length pre) + 8).
  { unfold Str.size. rewrite length_app. cbn [String.length]. lia. }
  unfold fits, Str.size_mod in F. rewrite Lall in F.
  unfold parse. rewrite (find_first _ _ _ First).
  destruct (Z.eqb_spec (Z.of_nat (String.length pre)) Str.npos) as [E|_];
    [unfold Str.npos, Str.size_mod in E; lia|].
  cbn [negb]. unfold bind at 1.
  rewrite substr_at by lia. rewrite Lall, Nat2Z.id, drop_app.
  rewrite take_all
    by (unfold Str.npos, Str.size_mod; cbn [String.length]; lia).
  reflexivity.
Qed.

End ParserEdges.

(** X1.  Where the output has something after its first [bestmove], the
    parse step of [Move] skips one character after the keyword, whatever it
    is, and returns what follows up to the first space or to the end of the
    output; it writes nothing to [std::cerr], also when what it returns is
    empty. *)
Theorem move_is_text_up_to_first_space
    (pre body : string) (sep : ascii) (w : World) :
  fits (pre ++ "bestmove" ++ String sep body) ->
  first_after pre "bestmove" (pre ++ "bestmove" ++ String sep body) ->
  guarded (parse (pre ++ "bestmove" ++ String sep body)) w
    = (Ret (upto_space body), w) /\
  extract (pre ++ "bestmove" ++ String sep body) = upto_space body.
Proof.
  intros F First. split; [now apply parse_after_keyword|].
  unfold extract. now rewrite (parse_after_keyword _ _ _ _ F First).
Qed.

Lemma move_is_text_up_to_first_space_witness :
  fits ("info depth 1 " ++ "bestmove" ++ String "=" ("d7d8q" ++ nl ++ "info done")) /\
  first_after "info depth 1 " "bestmove"
    ("info depth 1 " ++ "bestmove" ++ String "=" ("d7d8q" ++ nl ++ "info done")) /\
  guarded (parse ("info depth 1 " ++ "bestmove"
                  ++ String "=" ("d7d8q" ++ nl ++ "info done"))) init
    = (Ret (upto_space ("d7d8q" ++ nl ++ "info done")), init) /\
  extract ("info depth 1 " ++ "bestmove" ++ String "=" ("d7d8q" ++ nl ++ "info done"))
    = upto_space ("d7d8q" ++ nl ++ "info done").
Proof.
  assert (F : fits ("info depth 1 " ++ "bestmove"
                    ++ String "=" ("d7d8q" ++ nl ++ "info done"))) by reflexivity.
  assert (A : first_after "info depth 1 " "bestmove"
                ("info depth 1 " ++ "bestmove"
                 ++ String "=" ("d7d8q" ++ nl ++ "info done")))
    by (apply (first_after_search "info depth 1 " "bestmove"
                 (String "=" ("d7d8q" ++ nl ++ "info done"))); reflexivity).
  split; [exact F|]. split; [exact A|].
  exact (move_is_text_up_to_first_space "info depth 1 "
           ("d7d8q" ++ nl ++ "info done") "=" init F A).
Defined.

(** X2.  Whatever the engine wrote, the move [Move] makes of it has no
    space in it. *)
Theorem move_has_no_space (output : string) :
  fits output -> space_free (extract output) = true.
Proof.
  intros F. destruct (Str.search "bestmove" output) as [k|] eqn:Found.
  - destruct (search_bound _ _ _ Found) as (pre & post & -> & <-).
    apply first_after_search in Found.
    destruct post as [|sep body].
    + change (pre ++ "bestmove" ++ "") with (pre ++ "bestmove") in *.
      unfold extract, guarded, try_catch. unfold bind at 1.
      now rewrite (parse_bare_keyword pre init F Found).
    + unfold extract. rewrite (parse_after_keyword _ _ _ _ F Found).
      apply upto_space_free.
  - apply search_none in Found. now rewrite (extract_none _ Found).
Qed.

Lemma move_has_no_space_witness :
  fits chatty_output /\ space_free (extract chatty_output) = true.
Proof.
  assert (F : fits chatty_output) by reflexivity.
  split; [exact F | exact (move_has_no_space chatty_output F)].
Defined.

(** X3.  An output that ends with its first [bestmove], nothing after the
    keyword: [substr] throws [std::out_of_range] inside the [try] block, the
    [catch] writes the error to [std::cerr], and [Move] returns the empty
    string. *)
Theorem bare_keyword_is_caught (pre : string) (w : World) :
  fits (pre ++ "bestmove") ->
  first_after pre "bestmove" (pre ++ "bestmove") ->
  exists what,
    parse (pre ++ "bestmove") w = (Throw what, w) /\
    guarded (parse (pre ++ "bestmove")) w
      = (Ret "", logged w [EvCerr ("Error: " ++ what)]).
Proof.
  intros F First. exists "basic_string::substr".
  split; [now apply parse_bare_keyword|].
  unfold guarded, try_catch. unfold bind at 1.
  now rewrite (parse_bare_keyword pre w F First).
Qed.

Lemma bare_keyword_is_caught_witness :
  fits (("info depth 1" ++ nl) ++ "bestmove") /\
  first_after ("info depth 1" ++ nl) "bestmove" (("info depth 1" ++ nl) ++ "bestmove") /\
  exists what,
    parse (("info depth 1" ++ nl) ++ "bestmove") init = (Throw what, init) /\
    guarded (parse (("info depth 1" ++ nl) ++ "bestmove")) init
      = (Ret "", logged init [EvCerr ("Error: " ++ what)]).
Proof.
  assert (F : fits (("info depth 1" ++ nl) ++ "bestmove")) by reflexivity.
  assert (A : first_after ("info depth 1" ++ nl) "bestmove"
                (("info depth 1" ++ nl) ++ "bestmove"))
    by (apply (first_after_search ("info depth 1" ++ nl) "bestmove" ""); reflexivity).
  split; [exact F|]. split; [exact A|].
  exact (bare_keyword_is_caught ("info depth 1" ++ nl) init F A).
Defined.

(** X4.  The diagnostic that says [bestmove] was not found is written
    exactly when the output holds no [bestmove]. *)
Theorem not_found_is_reported_exactly (output : string) (w : World) :
  fits output ->
  (guarded (parse output) w
     = (Ret "", logged w [EvCerr "Error: 'bestmove' not found in stockfish output"])
   <-> ~ occurs "bestmove" output).
Proof.
  intros F. split; [|apply guarded_parse_none].
  intros Reported Occ.
  destruct (occurs_first _ _ Occ) as (pre & post & -> & First).
  destruct post as [|sep body].
  - change (pre ++ "bestmove" ++ "") with (pre ++ "bestmove") in *.
    unfold guarded, try_catch in Reported. unfold bind at 1 in Reported.
    rewrite (parse_bare_keyword pre w F First) in Reported.
    cbn [bind cerr emit ret] in Reported.
    injection Reported as Same. apply app_inv_head in Same. discriminate.
  - rewrite (parse_after_keyword _ _ _ _ F First) in Reported.
    injection Reported as _ Same. apply (f_equal trace) in Same.
    cbn [logged trace] in Same. apply (f_equal (@List.length event)) in Same.
    rewrite List.length_app in Same. cbn [List.length] in Same. lia.
Qed.

Lemma not_found_is_reported_exactly_witness :
  fits ("readyok" ++ nl) /\
  (guarded (parse ("readyok" ++ nl)) init
     = (Ret "", logged init [EvCerr "Error: 'bestmove' not found in stockfish output"])
   <-> ~ occurs "bestmove" ("readyok" ++ nl)).
Proof.
  assert (F : fits ("readyok" ++ nl)) by reflexivity.
  split; [exact F | exact (not_found_is_reported_exactly ("readyok" ++ nl) init F)].
Defined.

(** ** More on the spawn *)

Section SpawnEdges.

Lemma located_is_candidate (e : Env) :
  engine_installed e ->
  In (located e stockfish_paths) stockfish_paths /\
  can_exec e (located e stockfish_paths) = true.
Proof.
  intros (p & In_p & Y). unfold stockfish_paths in *. cbn [located].
  repeat match goal with
         | |- context [if can_exec e ?q then _ else _] =>
             destruct (can_exec e q) eqn:?; [cbn [In]; tauto|]
         end.
  cbn [In] in In_p. intuition (subst; congruence).
Qed.

End SpawnEdges.

(** X5.  When the first [pipe] fails the second is not attempted:
    [run_stockfish] throws right after the probes of the locator, no
    descriptor is open, no child exists, and [Move] returns the empty
    string after reporting the error. *)
Theorem first_pipe_failure_stops_the_spawn (e : Env) (fuel : nat) (fen : string) :
  engine_installed e ->
  pipe1 e = None ->
  exists w,
    run_stockfish fuel e fen init = (Throw "Failed to create pipes", w) /\
    trace w = (probes e stockfish_paths ++ [EvPipe None])%list /\
    fds w = [] /\
    Move fuel e fen init
      = (Ret "", logged w [EvCerr "Error: Failed to create pipes"]).
Proof.
  intros Installed P1.
  assert (Run : run_stockfish fuel e fen init
                = (Throw "Failed to create pipes",
                   logged init (probes e stockfish_paths ++ [EvPipe None]))).
  { unfold run_stockfish. unfold bind at 1. rewrite probe_spec.
    rewrite (located_installed e Installed), P1. step.
    unfold logged. cbn [trace clock ticks reads fds init]. reflexivity. }
  eexists. split; [exact Run|]. split; [reflexivity|]. split; [reflexivity|].
  exact (Move_of_throw _ _ _ _ _ _ Run).
Qed.

Lemma first_pipe_failure_stops_the_spawn_witness :
  engine_installed first_pipe_refused /\
  pipe1 first_pipe_refused = None /\
  exists w,
    run_stockfish 801 first_pipe_refused startpos init
      = (Throw "Failed to create pipes", w) /\
    trace w = (probes first_pipe_refused stockfish_paths ++ [EvPipe None])%list /\
    fds w = [] /\
    Move 801 first_pipe_refused startpos init
      = (Ret "", logged w [EvCerr "Error: Failed to create pipes"]).
Proof.
  assert (Installed : engine_installed first_pipe_refused)
    by (exists "/app/stockfish"; split; [right; left; reflexivity | reflexivity]).
  split; [exact Installed|]. split; [reflexivity|].
  exact (first_pipe_failure_stops_the_spawn first_pipe_refused 801 startpos
           Installed eq_refl).
Defined.

(** X6.  When the second [pipe] fails after the first succeeded,
    [run_stockfish] throws without closing the first pipe: its two
    descriptors are still open when [Move] returns the empty string. *)
Theorem second_pipe_failure_leaks_the_first
    (e : Env) (fuel : nat) (fen : string) (a b : Z) :
  engine_installed e ->
  pipe1 e = Some (a, b) ->
  pipe2 e = None ->
  exists w w',
    run_stockfish fuel e fen init = (Throw "Failed to create pipes", w) /\
    trace w = (probes e stockfish_paths ++ [EvPipe (Some (a, b)); EvPipe None])%list /\
    Move fuel e fen init = (Ret "", w') /\
    fds w' = [a; b].
Proof.
  intros Installed P1 P2.
  assert (Run : run_stockfish fuel e fen init
                = (Throw "Failed to create pipes",
                   mkWorld (probes e stockfish_paths
                            ++ [EvPipe (Some (a, b)); EvPipe None]) 0 O O [a; b])).
  { unfold run_stockfish. unfold bind at 1. rewrite probe_spec.
    rewrite (located_installed e Installed), P1, P2. step.
    cbn [init trace clock ticks reads fds]. rewrite <- !List.app_assoc. reflexivity. }
  do 2 eexists. split; [exact Run|]. split; [reflexivity|].
  split; [exact (Move_of_throw _ _ _ _ _ _ Run) | reflexivity].
Qed.

Lemma second_pipe_failure_leaks_the_first_witness :
  engine_installed second_pipe_refused /\
  pipe1 second_pipe_refused = Some (3, 4) /\
  pipe2 second_pipe_refused = None /\
  exists w w',
    run_stockfish 801 second_pipe_refused startpos init
      = (Throw "Failed to create pipes", w) /\
    trace w = (probes second_pipe_refused stockfish_paths
               ++ [EvPipe (Some (3, 4)); EvPipe None])%list /\
    Move 801 second_pipe_refused startpos init = (Ret "", w') /\
    fds w' = [3; 4].
Proof.
  assert (Installed : engine_installed second_pipe_refused)
    by (exists "/app/stockfish"; split; [right; left; reflexivity | reflexivity]).
  split; [exact Installed|]. split; [reflexivity|]. split; [reflexivity|].
  exact (second_pipe_failure_leaks_the_first second_pipe_refused 801 startpos 3 4
           Installed eq_refl eq_refl).
Defined.

(** X7.  In the child ([fork] returned 0) the call never comes back to the
    caller and never speaks to an engine: the child closes the pipe ends it
    does not use, puts the other two on descriptors 0 and 1, and executes
    the candidate the locator settled on, which is an executable one; when
    [execl] fails it reports [exec failed] and exits with status 1.  Neither
    ending is an exception, so the [catch] of [Move] lets it through. *)
Theorem child_execs_or_exits (e : Env) (fuel : nat) (fen : string) (a b c d : Z) :
  engine_installed e ->
  pipe1 e = Some (a, b) ->
  pipe2 e = Some (c, d) ->
  fork_pid e = 0 ->
  exists w,
    Move fuel e fen init
      = (if exec_ok e then Exec (located e stockfish_paths) else Exit 1, w) /\
    trace w = (probes e stockfish_paths
               ++ [EvPipe (Some (a, b)); EvPipe (Some (c, d)); EvFork 0]
               ++ rewiring a b c d
               ++ [EvExecl (located e stockfish_paths)]
               ++ (if exec_ok e then []
                   else [EvPerror "exec failed"; EvExit 1]))%list /\
    In (located e stockfish_paths) stockfish_paths /\
    can_exec e (located e stockfish_paths) = true.
Proof.
  intros Installed P1 P2 Child.
  assert (Run : exists w,
             run_stockfish fuel e fen init
               = (if exec_ok e then Exec (located e stockfish_paths) else Exit 1, w) /\
             trace w = (probes e stockfish_paths
                        ++ [EvPipe (Some (a, b)); EvPipe (Some (c, d)); EvFork 0]
                        ++ rewiring a b c d
                        ++ [EvExecl (located e stockfish_paths)]
                        ++ (if exec_ok e then []
                            else [EvPerror "exec failed"; EvExit 1]))%list).
  { unfold run_stockfish. unfold bind at 1. rewrite probe_spec.
    rewrite (located_installed e Installed), P1, P2. step. rewrite Child.
    cbn [Z.ltb Z.eqb Z.compare].
    cbn [bind close dup2 emit ret set_fds trace clock ticks reads fds].
    unfold execl.
    destruct (exec_ok e);
      cbn [bind close dup2 execl perror exit emit ret set_fds
           trace clock ticks reads fds];
      eexists; (split; [reflexivity|]); cbn [trace init];
      unfold rewiring; rewrite <- !List.app_assoc; reflexivity. }
  destruct Run as (w & Run & Tr). exists w.
  split; [|split; [exact Tr | now apply located_is_candidate]].
  unfold Move, guarded, try_catch, bind. rewrite Run. now destruct (exec_ok e).
Qed.

Lemma child_execs_or_exits_witness :
  engine_installed child_side /\
  pipe1 child_side = Some (3, 4) /\
  pipe2 child_side = Some (5, 6) /\
  fork_pid child_side = 0 /\
  exists w,
    Move 801 child_side startpos init
      = (if exec_ok child_side then Exec (located child_side stockfish_paths)
         else Exit 1, w) /\
    trace w = (probes child_side stockfish_paths
               ++ [EvPipe (Some (3, 4)); EvPipe (Some (5, 6)); EvFork 0]
               ++ rewiring 3 4 5 6
               ++ [EvExecl (located child_side stockfish_paths)]
               ++ (if exec_ok child_side then []
                   else [EvPerror "exec failed"; EvExit 1]))%list /\
    In (located child_side stockfish_paths) stockfish_paths /\
    can_exec child_side (located child_side stockfish_paths) = true.
Proof.
  assert (Installed : engine_installed child_side)
    by (exists "/app/stockfish"; split; [right; left; reflexivity | reflexivity]).
  split; [exact Installed|]. split; [reflexivity|]. split; [reflexivity|].
  split; [reflexivity|].
  exact (child_execs_or_exits child_side 801 startpos 3 4 5 6
           Installed eq_refl eq_refl eq_refl).
Defined.

(** ** More on the protocol *)

Section ProtocolEdges.





End ProtocolEdges.

(** X8.  After a successful spawn each of the two loops stops reading with
    the first chunk that shows its token to [strstr], or with the first
    clock reading past its limit, whichever comes first; and what
    [run_stockfish] returns, once the child is reaped, is the text of the
    chunks the second loop read, in order and in full: what the first loop
    read is dropped. *)
Theorem output_is_what_result_wait_read
    (e : Env) (fen : string) (fuel : nat) (a b c d : Z) :
  engine_installed e ->
  pipe1 e = Some (a, b) ->
  pipe2 e = Some (c, d) ->
  0 < fork_pid e ->
  (801 <= fuel)%nat ->
  exists n1 n2 early1 early2 t0 t1 t2 t3 w,
    run_stockfish fuel e fen init = (after_reaping e (captured e (S n1) (S n2)), w) /\
    trace w = (probes e stockfish_paths ++ launch a b c d (fork_pid e)
               ++ greeting e b ++ [EvNow t0] ++ early1
               ++ last_round c (engine_out e n1) t0 5 t1
               ++ query b fen ++ [EvNow t2] ++ early2
               ++ last_round c (engine_out e (S n1 + n2)) t2 7 t3
               ++ shutdown b c (fork_pid e))%list /\
    rounds e c t0 5 O n1 early1 /\
    rounds e c t2 7 (S n1) n2 early2 /\
    (forall k, (k < n1)%nat -> has_token e "readyok" k = false) /\
    (has_token e "readyok" n1 = true \/ seconds_between t0 t1 > 5) /\
    (forall k, (k < n2)%nat -> has_token e "bestmove" (S n1 + k) = false) /\
    (has_token e "bestmove" (S n1 + n2) = true \/ seconds_between t2 t3 > 7) /\
    reads w = (S n1 + S n2)%nat.
Proof.
  intros Installed P1 P2 Forked Enough.
  destruct (parent_run e fen fuel a b c d Installed P1 P2 Forked Enough)
    as (n1 & n2 & early1 & early2 & t0 & t1 & t2 & t3 & w & Run & Tr & _
        & R1 & R2 & _ & _ & Q1 & L1 & Q2 & L2 & Rd).
  exists n1, n2, early1, early2, t0, t1, t2, t3, w.
  split; [exact Run|]. split; [exact Tr|]. split; [exact R1|]. split; [exact R2|].
  split; [exact Q1|].
  split; [destruct (has_token e "readyok" n1); [now left | right; now apply L1]|].
  split; [exact Q2|].
  split; [destruct (has_token e "bestmove" (S n1 + n2)); [now left | right; now apply L2]|].
  exact Rd.
Qed.

Lemma output_is_what_result_wait_read_witness :
  engine_installed pondering_engine /\
  pipe1 pondering_engine = Some (3, 4) /\
  pipe2 pondering_engine = Some (5, 6) /\
  0 < fork_pid pondering_engine /\
  (801 <= 801)%nat /\
  exists n1 n2 early1 early2 t0 t1 t2 t3 w,
    run_stockfish 801 pondering_engine startpos init
      = (after_reaping pondering_engine
           (captured pondering_engine (S n1) (S n2)), w) /\
    trace w = (probes pondering_engine stockfish_paths
               ++ launch 3 4 5 6 (fork_pid pondering_engine)
               ++ greeting pondering_engine 4 ++ [EvNow t0] ++ early1
               ++ last_round 5 (engine_out pondering_engine n1) t0 5 t1
               ++ query 4 startpos ++ [EvNow t2] ++ early2
               ++ last_round 5 (engine_out pondering_engine (S n1 + n2)) t2 7 t3
               ++ shutdown 4 5 (fork_pid pondering_engine))%list /\
    rounds pondering_engine 5 t0 5 O n1 early1 /\
    rounds pondering_engine 5 t2 7 (S n1) n2 early2 /\
    (forall k, (k < n1)%nat -> has_token pondering_engine "readyok" k = false) /\
    (has_token pondering_engine "readyok" n1 = true \/ seconds_between t0 t1 > 5) /\
    (forall k, (k < n2)%nat ->
               has_token pondering_engine "bestmove" (S n1 + k) = false) /\
    (has_token pondering_engine "bestmove" (S n1 + n2) = true
     \/ seconds_between t2 t3 > 7) /\
    reads w = (S n1 + S n2)%nat.
Proof.
  assert (Installed : engine_installed pondering_engine)
    by (exists "/app/stockfish"; split; [right; left; reflexivity | reflexivity]).
  assert (Forked : 0 < fork_pid pondering_engine) by reflexivity.
  assert (Enough : (801 <= 801)%nat) by apply le_n.
  split; [exact Installed|]. split; [reflexivity|]. split; [reflexivity|].
  split; [exact Forked|]. split; [exact Enough|].
  exact (output_is_what_result_wait_read pondering_engine startpos 801 3 4 5 6
           Installed eq_refl eq_refl Forked Enough).
Defined.



(** X10.  An engine that answers [isready] with its first chunk and the
    search with its second is read exactly twice, however slow the machine:
    [Move] returns, once the child is reaped, what the parse step makes of
    the second chunk alone. *)
Theorem prompt_engine_is_read_twice
    (e : Env) (fen : string) (fuel : nat) (a b c d : Z) :
  engine_installed e ->
  pipe1 e = Some (a, b) ->
  pipe2 e = Some (c, d) ->
  0 < fork_pid e ->
  (801 <= fuel)%nat ->
  has_token e "readyok" 0 = true ->
  has_token e "bestmove" 1 = true ->
  exists w diag,
    run_stockfish fuel e fen init = (after_reaping e (chunk e 1), w) /\
    reads w = 2%nat /\
    Move fuel e fen init
      = (after_reaping e (extract (chunk e 1)),
         if child_exits e then logged w diag else w).
Proof.
  intros Installed P1 P2 Forked Enough Ready Best.
  destruct (parent_run e fen fuel a b c d Installed P1 P2 Forked Enough)
    as (n1 & n2 & _ & _ & _ & _ & _ & _ & w & Run & _ & _
        & _ & _ & _ & _ & Q1 & _ & Q2 & _ & Rd).
  assert (n1 = O) as ->.
  { destruct n1 as [|n1]; [reflexivity|].
    specialize (Q1 O ltac:(lia)). congruence. }
  assert (n2 = O) as ->.
  { destruct n2 as [|n2]; [reflexivity|].
    specialize (Q2 O ltac:(lia)). cbn [Nat.add] in Q2. congruence. }
  cbn [captured] in Run. rewrite app_nil_r in Run.
  destruct (Move_after_reaping fuel e fen init w _ Run) as (diag & Parsed & _).
  exists w, diag. split; [exact Run|]. split; [exact Rd|]. exact Parsed.
Qed.

Lemma prompt_engine_is_read_twice_witness :
  engine_installed pondering_engine /\
  pipe1 pondering_engine = Some (3, 4) /\
  pipe2 pondering_engine = Some (5, 6) /\
  0 < fork_pid pondering_engine /\
  (801 <= 801)%nat /\
  has_token pondering_engine "readyok" 0 = true /\
  has_token pondering_engine "bestmove" 1 = true /\
  exists w diag,
    run_stockfish 801 pondering_engine startpos init
      = (after_reaping pondering_engine (chunk pondering_engine 1), w) /\
    reads w = 2%nat /\
    Move 801 pondering_engine startpos init
      = (after_reaping pondering_engine (extract (chunk pondering_engine 1)),
         if child_exits pondering_engine then logged w diag else w).
Proof.
  assert (Installed : engine_installed pondering_engine)
    by (exists "/app/stockfish"; split; [right; left; reflexivity | reflexivity]).
  assert (Forked : 0 < fork_pid pondering_engine) by reflexivity.
  assert (Enough : (801 <= 801)%nat) by apply le_n.
  split; [exact Installed|]. split; [reflexivity|]. split; [reflexivity|].
  split; [exact Forked|]. split; [exact Enough|].
  split; [reflexivity|]. split; [reflexivity|].
  exact (prompt_engine_is_read_twice pondering_engine startpos 801 3 4 5 6
           Installed eq_refl eq_refl Forked Enough eq_refl eq_refl).
Defined.


